(** * Name binding (lib/Sema/NameBinding.cpp)

    A shallow embedding of the name-binding pass: the per-module index
    ([ReferencedModule]), the [NameBinder] with its table of top-level
    values and its ordered import list, the callback [BindNames] and the
    entry point [performNameBinding].

    Objects that the C++ code handles through pointers are modelled as
    follows.
    - A [ValueDecl*] is an address ([DeclPtr]); every value declaration
      carries its own address, and the tables and [DeclRefExpr] nodes store
      addresses, so that rewriting an initializer never changes what a
      table entry or a resolved reference points to.
    - A [ReferencedModule*] is a position in [LoadedModules], the vector
      that owns the modules; the import list stores positions, and a lookup
      through an import updates the module stored at that position.
    - [ASTContext &Context] is a field of the binder state that is handed
      back to the caller when the pass returns. *)

From stdpp Require Import base tactics option list gmap strings.

Local Open Scope string_scope.
Local Open Scope list_scope.

(** ** Identifiers, locations, buffers *)

(** Modelled from the spec: [Identifier] is declared outside this file; it
    is a name, possibly empty, and the empty one names nothing. *)
Definition Identifier := string.

(** [Identifier::empty()] *)
Definition empty_id (I : Identifier) : bool :=
  match I with
  | EmptyString => true
  | String _ _ => false
  end.

(** [llvm::SMLoc]: a position in a source buffer. *)
Definition SMLoc := nat.

(** [llvm::MemoryBuffer]: the contents of a file. *)
Definition MemoryBuffer := string.

(** [llvm::error_code], observed only through [message()]. *)
Record error_code := { message : string }.

(** Address of a [ValueDecl] object. *)
Definition DeclPtr := N.

(** ** Expressions *)

(** Modelled from the spec: the expression nodes are declared outside this
    file.  An unresolved reference carries an identifier and a location, a
    resolved reference points to a value declaration; every other kind of
    node is an [OtherExpr] with a tag and its operand slots, and an operand
    slot, being an [Expr*], may be null. *)
#[local] Unset Elimination Schemes.
Inductive Expr : Type :=
| UnresolvedDeclRefExpr (Name : Identifier) (Loc : SMLoc)
| DeclRefExpr (D : DeclPtr) (Loc : SMLoc)
| OtherExpr (Kind : string) (SubExprs : list (option Expr)).

#[local] Set Elimination Schemes.

(** [Expr::WalkOrder]: the stage of the walk at which the callback is
    invoked on a node, before or after the operands of the node. *)
Inductive WalkOrder := Walk_PreOrder | Walk_PostOrder.

(** Induction over expressions that reaches into the operand slots. *)
Section ExprInd.
Variable P : Expr → Prop.
Hypothesis H_unresolved : ∀ Name Loc, P (UnresolvedDeclRefExpr Name Loc).
Hypothesis H_declref : ∀ D Loc, P (DeclRefExpr D Loc).
Hypothesis H_other : ∀ Kind SubExprs,
    Forall (λ Slot, ∀ E, Slot = Some E → P E) SubExprs →
    P (OtherExpr Kind SubExprs).

Fixpoint Expr_nested_ind (E : Expr) : P E :=
  match E with
  | UnresolvedDeclRefExpr Name Loc => H_unresolved Name Loc
  | DeclRefExpr D Loc => H_declref D Loc
  | OtherExpr Kind SubExprs =>
      H_other Kind SubExprs
        ((fix slots (l : list (option Expr)) :
            Forall (λ Slot, ∀ E, Slot = Some E → P E) l :=
            match l with
            | [] => List.Forall_nil _
            | Slot :: l' =>
                @List.Forall_cons _ _ Slot l'
                  (match Slot as o return ∀ E, o = Some E → P E with
                   | Some E0 => λ E HE,
                       eq_ind E0 P (Expr_nested_ind E0) E
                         (f_equal (λ o, default E0 o) HE)
                   | None => λ E HE,
                       False_ind _
                         (eq_ind None (λ o, if o is None then True else False) I _ HE)
                   end)
                  (slots l')
            end) SubExprs)
  end.
End ExprInd.

(** ** Declarations *)

(** Modelled from the spec: the declaration nodes are declared outside this
    file.  A value declaration has a name, which may be empty, and an
    initializer, which may be null; [vd_addr] is the address of the object. *)
Record ValueDecl := {
  vd_addr : DeclPtr;
  vd_Name : Identifier;
  vd_Init : option Expr;
}.

(** Modelled from the spec: an import names a module and carries the
    location of the import statement. *)
Record ImportDecl := {
  id_ImportLoc : SMLoc;
  id_Name : Identifier;
}.

(** Modelled from the spec: the dynamic type of a [Decl*], as [dyn_cast]
    tests it. *)
Inductive Decl :=
| AValueDecl (VD : ValueDecl)
| AnImportDecl (ID : ImportDecl)
| AnotherDecl (Kind : string).

(** Modelled from the spec: a translation unit is the ordered sequence of
    its top-level declarations. *)
Record TranslationUnitDecl := { Decls : list Decl }.

(** ** The compilation context *)

(** [llvm::SourceMgr]: the registered buffers with their include locations,
    and the messages printed so far as (location, text, kind). *)
Record llvm_SourceMgr := {
  Buffers : list (MemoryBuffer * SMLoc);
  Messages : list (SMLoc * string * string);
}.

(** Modelled from the spec: the context, declared outside this file, owns
    the source manager and the flag that records that an error was
    reported. *)
Record ASTContext := {
  HadError : bool;
  SourceMgr : llvm_SourceMgr;
}.

(** [llvm::SourceMgr::PrintMessage]: the message is recorded after those
    already printed. *)
Definition PrintMessage (Loc : SMLoc) (Msg Type_ : string) (SM : llvm_SourceMgr)
  : llvm_SourceMgr :=
  {| Buffers := Buffers SM; Messages := Messages SM ++ [(Loc, Msg, Type_)] |}.

(** [llvm::SourceMgr::AddNewSourceBuffer]: registers a buffer and returns
    its id, the position it was stored at. *)
Definition AddNewSourceBuffer (F : MemoryBuffer) (IncludeLoc : SMLoc)
    (SM : llvm_SourceMgr) : nat * llvm_SourceMgr :=
  (length (Buffers SM),
   {| Buffers := Buffers SM ++ [(F, IncludeLoc)]; Messages := Messages SM |}).

(** Modelled from the spec: [ASTContext::setHadError] sets the flag. *)
Definition setHadError (C : ASTContext) : ASTContext :=
  {| HadError := true; SourceMgr := SourceMgr C |}.

(** ** ReferencedModule *)

Record ReferencedModule := {
  rm_TUD : TranslationUnitDecl;
  rm_TopLevelValues : gmap Identifier DeclPtr;
}.

(** [ReferencedModule(TranslationUnitDecl *tud)] *)
Definition ReferencedModule_new (tud : TranslationUnitDecl) : ReferencedModule :=
  {| rm_TUD := tud; rm_TopLevelValues := ∅ |}.

(** The loop of lines 63-68: every value declaration with a non-empty name
    is stored under its name, a later one replacing an earlier one. *)
Fixpoint indexDecls (Ds : list Decl) (M : gmap Identifier DeclPtr)
  : gmap Identifier DeclPtr :=
  match Ds with
  | [] => M
  | D :: rest =>
      indexDecls rest
        (match D with
         | AValueDecl VD =>
             if empty_id (vd_Name VD) then M else <[vd_Name VD := vd_addr VD]> M
         | _ => M
         end)
  end.

(** The first half of [lookupValue]: build the map when it is empty. *)
Definition buildTopLevelValues (RM : ReferencedModule) : ReferencedModule :=
  if decide (rm_TopLevelValues RM = ∅)
  then {| rm_TUD := rm_TUD RM;
          rm_TopLevelValues := indexDecls (Decls (rm_TUD RM)) (rm_TopLevelValues RM) |}
  else RM.

(** [ReferencedModule::lookupValue]: the result, and the module afterwards. *)
Definition lookupValue (RM : ReferencedModule) (ID : ImportDecl) (Name : Identifier)
  : option DeclPtr * ReferencedModule :=
  let RM' := buildTopLevelValues RM in
  (rm_TopLevelValues RM' !! Name, RM').

(** ** NameBinder *)

(** The state of a [NameBinder].  [Imports] pairs each import statement
    with the position of its module in [LoadedModules]. *)
Record NameBinder := {
  LoadedModules : list ReferencedModule;
  TopLevelValues : gmap Identifier DeclPtr;
  Imports : list (ImportDecl * nat);
  Context : ASTContext;
}.

(** [NameBinder(ASTContext &C)] *)
Definition NameBinder_new (C : ASTContext) : NameBinder :=
  {| LoadedModules := []; TopLevelValues := ∅; Imports := []; Context := C |}.

Definition with_Context (C : ASTContext) (B : NameBinder) : NameBinder :=
  {| LoadedModules := LoadedModules B; TopLevelValues := TopLevelValues B;
     Imports := Imports B; Context := C |}.

Definition with_LoadedModules (Ms : list ReferencedModule) (B : NameBinder)
  : NameBinder :=
  {| LoadedModules := Ms; TopLevelValues := TopLevelValues B;
     Imports := Imports B; Context := Context B |}.

(** [NameBinder::addNamedTopLevelDecl] *)
Definition addNamedTopLevelDecl (VD : ValueDecl) (B : NameBinder) : NameBinder :=
  {| LoadedModules := LoadedModules B;
     TopLevelValues := <[vd_Name VD := vd_addr VD]> (TopLevelValues B);
     Imports := Imports B; Context := Context B |}.

(** [NameBinder::note], [warning], [error] *)
Definition note (Loc : SMLoc) (Message : string) (B : NameBinder) : NameBinder :=
  with_Context
    {| HadError := HadError (Context B);
       SourceMgr := PrintMessage Loc Message "note" (SourceMgr (Context B)) |} B.

Definition warning (Loc : SMLoc) (Message : string) (B : NameBinder) : NameBinder :=
  with_Context
    {| HadError := HadError (Context B);
       SourceMgr := PrintMessage Loc Message "warning" (SourceMgr (Context B)) |} B.

Definition error (Loc : SMLoc) (Message : string) (B : NameBinder) : NameBinder :=
  let C := setHadError (Context B) in
  with_Context
    {| HadError := HadError C;
       SourceMgr := PrintMessage Loc Message "error" (SourceMgr C) |} B.

(** The name of the file an import is read from (line 118). *)
Definition InputFilename (ModuleID : Identifier) : string := ModuleID +:+ ".swift".

(** The loop of lines 161-166 over [Imports]: the modules are looked up in
    order and the first declaration found is returned; each lookup may
    build the map of the module it goes through.  A position outside
    [LoadedModules] has no module to ask and is passed over; [addImport]
    never stores one. *)
Fixpoint scanImports (Is : list (ImportDecl * nat)) (Name : Identifier)
    (Ms : list ReferencedModule) : option DeclPtr * list ReferencedModule :=
  match Is with
  | [] => (None, Ms)
  | (ID, p) :: rest =>
      match Ms !! p with
      | Some RM =>
          let '(D, RM') := lookupValue RM ID Name in
          let Ms' := <[p := RM']> Ms in
          match D with
          | Some D => (Some D, Ms')
          | None => scanImports rest Name Ms'
          end
      | None => scanImports rest Name Ms
      end
  end.

(** [NameBinder::bindValueName]: the expression returned (null when the
    name is unresolved) and the binder afterwards. *)
Definition bindValueName (Name : Identifier) (Loc : SMLoc) (B : NameBinder)
  : option Expr * NameBinder :=
  match TopLevelValues B !! Name with
  | Some D => (Some (DeclRefExpr D Loc), B)
  | None =>
      let '(D, Ms) := scanImports (Imports B) Name (LoadedModules B) in
      let B := with_LoadedModules Ms B in
      match D with
      | Some D => (Some (DeclRefExpr D Loc), B)
      | None =>
          (None, error Loc ("use of unresolved identifier '" +:+ Name +:+ "'") B)
      end
  end.

(** [BindNames], the callback handed to [WalkExpr]. *)
Definition BindNames (E : Expr) (Order : WalkOrder) (Binder : NameBinder)
  : option Expr * NameBinder :=
  match Order with
  | Walk_PreOrder => (Some E, Binder)
  | Walk_PostOrder =>
      match E with
      | UnresolvedDeclRefExpr Name Loc => bindValueName Name Loc Binder
      | _ => (Some E, Binder)
      end
  end.

(** Modelled from the spec: [Expr::WalkExpr] is defined outside this file
    (with the expression nodes).  The spec describes it as a traversal
    that visits children before parents and replaces a node by what the
    callback returns for it, a null result leaving a hole in the enclosing
    node while the traversal goes on.  The callback is told the stage of
    the visit; the node it returns at the pre-order stage is not spliced
    in. *)
Section WalkExpr.
Context {State : Type}.
Variable Fn : Expr → WalkOrder → State → option Expr * State.

Fixpoint WalkExpr (E : Expr) (st : State) : option Expr * State :=
  let st := (Fn E Walk_PreOrder st).2 in
  match E with
  | OtherExpr Kind SubExprs =>
      let '(SubExprs', st) :=
        (fix walkSlots (l : list (option Expr)) (st : State)
           : list (option Expr) * State :=
           match l with
           | [] => ([], st)
           | None :: l => let '(l', st) := walkSlots l st in (None :: l', st)
           | Some C :: l =>
               let '(C', st) := WalkExpr C st in
               let '(l', st) := walkSlots l st in
               (C' :: l', st)
           end) SubExprs st in
      Fn (OtherExpr Kind SubExprs') Walk_PostOrder st
  | _ => Fn E Walk_PostOrder st
  end.

(** The walk over the operand slots of a node, left to right. *)
Fixpoint walkSubExprs (l : list (option Expr)) (st : State)
  : list (option Expr) * State :=
  match l with
  | [] => ([], st)
  | None :: l => let '(l', st) := walkSubExprs l st in (None :: l', st)
  | Some C :: l =>
      let '(C', st) := WalkExpr C st in
      let '(l', st) := walkSubExprs l st in
      (C' :: l', st)
  end.
End WalkExpr.

(** ** Specification-side notions *)

(** The operations a binder goes through: a step of the prepass on a
    declaration, a resolution, the rewriting of a declaration. *)
Inductive BinderOp :=
| OpPrepass (D : Decl)
| OpResolve (Name : Identifier) (Loc : SMLoc)
| OpBind (D : Decl).

(** No key of a table is the empty identifier. *)
Definition keysNonEmpty (M : gmap Identifier DeclPtr) : Prop :=
  ∀ k v, M !! k = Some v → empty_id k = false.

(** The invariant of the spec on every table a binder holds. *)
Definition binderKeysNonEmpty (B : NameBinder) : Prop :=
  keysNonEmpty (TopLevelValues B) ∧
  Forall (λ RM, keysNonEmpty (rm_TopLevelValues RM)) (LoadedModules B).

(** [named Name Ds]: some value declaration of [Ds] is called [Name]. *)
Definition named (Name : Identifier) (Ds : list Decl) : bool :=
  existsb (λ D, match D with
                | AValueDecl VD => String.eqb (vd_Name VD) Name
                | _ => false
                end) Ds.

(** The modules of [Ms'] are those of [Ms], some with their map built. *)
Definition built_from (Ms Ms' : list ReferencedModule) : Prop :=
  Forall2 (λ RM RM', RM' = RM ∨ RM' = buildTopLevelValues RM) Ms Ms'.

(** The sub-expression reached from [E] by descending through the operand
    slots listed in [path]. *)
Fixpoint subExprAt (path : list nat) (E : Expr) : option Expr :=
  match path with
  | [] => Some E
  | i :: path =>
      match E with
      | OtherExpr _ SubExprs =>
          match SubExprs !! i with
          | Some (Some C) => subExprAt path C
          | _ => None
          end
      | _ => None
      end
  end.

(** What stands, in an initializer that may be null, at the position that
    [path] leads to: a node, or null where the slot is empty; no answer
    when the position does not exist. *)
Fixpoint nodeAt (path : list nat) (o : option Expr) : option (option Expr) :=
  match path with
  | [] => Some o
  | i :: path =>
      match o with
      | Some (OtherExpr _ SubExprs) =>
          match SubExprs !! i with
          | Some Slot => nodeAt path Slot
          | None => None
          end
      | _ => None
      end
  end.

(** The Reference Rewriter in the words of the spec: children first, an
    unresolved reference replaced by what resolution returns for its name
    and location, any other node passed through. *)
Fixpoint rewriteReferences (E : Expr) (B : NameBinder) : option Expr * NameBinder :=
  match E with
  | UnresolvedDeclRefExpr Name Loc => bindValueName Name Loc B
  | DeclRefExpr D Loc => (Some (DeclRefExpr D Loc), B)
  | OtherExpr Kind SubExprs =>
      let '(SubExprs', B) :=
        (fix children (l : list (option Expr)) (B : NameBinder)
           : list (option Expr) * NameBinder :=
           match l with
           | [] => ([], B)
           | None :: l => let '(l', B) := children l B in (None :: l', B)
           | Some C :: l =>
               let '(C', B) := rewriteReferences C B in
               let '(l', B) := children l B in
               (C' :: l', B)
           end) SubExprs B in
      (Some (OtherExpr Kind SubExprs'), B)
  end.

(** The same rewriting over the operand slots of a node, left to right; a
    null slot stays null. *)
Fixpoint rewriteChildren (l : list (option Expr)) (B : NameBinder)
  : list (option Expr) * NameBinder :=
  match l with
  | [] => ([], B)
  | None :: l => let '(l', B) := rewriteChildren l B in (None :: l', B)
  | Some C :: l =>
      let '(C', B) := rewriteReferences C B in
      let '(l', B) := rewriteChildren l B in
      (C' :: l', B)
  end.

(** The declaration offered by the first import, in list order, whose
    module has one under [Name]; the modules are taken as [Ms] holds them. *)
Fixpoint firstImport (Is : list (ImportDecl * nat)) (Name : Identifier)
    (Ms : list ReferencedModule) : option DeclPtr :=
  match Is with
  | [] => None
  | (ID, p) :: rest =>
      match Ms !! p with
      | Some RM =>
          match (lookupValue RM ID Name).1 with
          | Some D => Some D
          | None => firstImport rest Name Ms
          end
      | None => firstImport rest Name Ms
      end
  end.

(** [B'] holds the table and the import list of [B], and the modules of
    [B], some with their map built: what resolutions leave of a binder. *)
Definition binder_step (B B' : NameBinder) : Prop :=
  TopLevelValues B' = TopLevelValues B ∧
  Imports B' = Imports B ∧
  built_from (LoadedModules B) (LoadedModules B').

(** ** A small compilation, used to run the definitions

    A file system holding one module, [Lib.swift], a parser that yields
    its two declarations, and a unit that imports it. *)
Module Sample.

Definition Ctx : ASTContext :=
  {| HadError := false; SourceMgr := {| Buffers := []; Messages := [] |} |}.

Definition helper : ValueDecl :=
  {| vd_addr := 100%N; vd_Name := "helper"; vd_Init := None |}.

Definition helper' : ValueDecl :=
  {| vd_addr := 101%N; vd_Name := "helper"; vd_Init := None |}.

Definition Lib : TranslationUnitDecl :=
  {| Decls := [AValueDecl helper; AValueDecl helper'] |}.

Definition getFile (Filename : string) : error_code + MemoryBuffer :=
  if String.eqb Filename "Lib.swift" then inr "var helper; var helper"
  else inl {| message := "No such file or directory" |}.

Definition parseTranslationUnit (BufferID : nat) (C : ASTContext)
  : option TranslationUnitDecl * ASTContext :=
  (Some Lib, C).

Definition importLib : ImportDecl := {| id_ImportLoc := 1; id_Name := "Lib" |}.
Definition importNone : ImportDecl := {| id_ImportLoc := 2; id_Name := "None" |}.

(** [b = a; a = 1] *)
Definition a : ValueDecl :=
  {| vd_addr := 11%N; vd_Name := "a"; vd_Init := Some (OtherExpr "1" []) |}.

Definition b : ValueDecl :=
  {| vd_addr := 10%N; vd_Name := "b";
     vd_Init := Some (OtherExpr "call" [None; Some (UnresolvedDeclRefExpr "a" 7)]) |}.

Definition forward : TranslationUnitDecl :=
  {| Decls := [AValueDecl b; AValueDecl a] |}.

(** A binder with two imports, the second of which offers [helper]. *)
Definition twoImports : NameBinder :=
  {| LoadedModules :=
       [ReferencedModule_new {| Decls := [AValueDecl a] |}; ReferencedModule_new Lib];
     TopLevelValues := {[ "b" := 10%N ]};
     Imports := [(importNone, 0); (importLib, 1)];
     Context := Ctx |}.

(** [import Lib; x = call(callee); callee = 42] *)
Definition x : ValueDecl :=
  {| vd_addr := 20%N; vd_Name := "x";
     vd_Init := Some (OtherExpr "call" [Some (UnresolvedDeclRefExpr "callee" 4)]) |}.

Definition callee : ValueDecl :=
  {| vd_addr := 21%N; vd_Name := "callee"; vd_Init := Some (OtherExpr "42" []) |}.

Definition localWins : TranslationUnitDecl :=
  {| Decls := [AnImportDecl importLib; AValueDecl x; AValueDecl callee] |}.

(** [import Lib; y = call(helper)] *)
Definition y : ValueDecl :=
  {| vd_addr := 30%N; vd_Name := "y";
     vd_Init := Some (OtherExpr "call" [Some (UnresolvedDeclRefExpr "helper" 5)]) |}.

Definition imported : TranslationUnitDecl :=
  {| Decls := [AnImportDecl importLib; AValueDecl y] |}.

(** [z = call(ghost); w = z] *)
Definition z : ValueDecl :=
  {| vd_addr := 40%N; vd_Name := "z";
     vd_Init := Some (OtherExpr "call" [Some (UnresolvedDeclRefExpr "ghost" 6)]) |}.

Definition w : ValueDecl :=
  {| vd_addr := 41%N; vd_Name := "w";
     vd_Init := Some (UnresolvedDeclRefExpr "z" 8) |}.

Definition unresolved : TranslationUnitDecl :=
  {| Decls := [AValueDecl z; AValueDecl w] |}.

End Sample.

(** ** Further notions, for the properties of the whole pass *)

(** Some node of [E] is an unresolved reference. *)
Fixpoint hasUnresolved (E : Expr) : bool :=
  match E with
  | UnresolvedDeclRefExpr _ _ => true
  | DeclRefExpr _ _ => false
  | OtherExpr _ SubExprs =>
      existsb (λ Slot, match Slot with
                       | Some C => hasUnresolved C
                       | None => false
                       end) SubExprs
  end.

(** The initializer of [D], if [D] has one, holds no unresolved reference. *)
Definition declResolved (D : Decl) : bool :=
  match D with
  | AValueDecl VD =>
      match vd_Init VD with
      | Some E => negb (hasUnresolved E)
      | None => true
      end
  | _ => true
  end.

(** [D'] is [D] up to the contents of an initializer that [D] has: same
    kind of declaration, same address and name, and no initializer where
    [D] has none. *)
Definition declFrame (D D' : Decl) : Prop :=
  match D, D' with
  | AValueDecl VD, AValueDecl VD' =>
      vd_addr VD' = vd_addr VD ∧ vd_Name VD' = vd_Name VD ∧
      (vd_Init VD = None → vd_Init VD' = None)
  | AnImportDecl ID, AnImportDecl ID' => ID' = ID
  | AnotherDecl Kind, AnotherDecl Kind' => Kind' = Kind
  | _, _ => False
  end.

(** The import statements of a unit, in order. *)
Definition importDecls (Ds : list Decl) : list ImportDecl :=
  omap (λ D, match D with AnImportDecl ID => Some ID | _ => None end) Ds.

(** Every import entry points to a module of its own: the entries hold
    the positions of [LoadedModules], in order. *)
Definition importsTrackModules (B : NameBinder) : Prop :=
  (Imports B).*2 = seq 0 (length (LoadedModules B)).

(** [C'] is [C] after some errors were reported: messages of kind error
    were added after those of [C], the flag was raised if there was one,
    and the buffers are those of [C]. *)
Definition reports (C C' : ASTContext) : Prop :=
  ∃ new,
    Messages (SourceMgr C') = Messages (SourceMgr C) ++ new ∧
    Forall (λ m, m.2 = "error") new ∧
    HadError C' = HadError C || match new with [] => false | _ :: _ => true end ∧
    Buffers (SourceMgr C') = Buffers (SourceMgr C).

(** A sequence of resolutions, the results being dropped. *)
Definition resolveAll (rs : list (Identifier * SMLoc)) (B : NameBinder)
  : NameBinder :=
  foldl (λ B r, (bindValueName r.1 r.2 B).2) B rs.

(** More sample data: a parser that fails, a unit without imports and a
    binder with three imports. *)
Module SampleMore.

Definition failingParser (BufferID : nat) (C : ASTContext)
  : option TranslationUnitDecl * ASTContext :=
  (None, {| HadError := true;
            SourceMgr := PrintMessage 0 "expected declaration" "error" (SourceMgr C) |}).

Definition noImports : TranslationUnitDecl :=
  {| Decls := [AValueDecl Sample.b; AValueDecl Sample.a] |}.

Definition threeModules : NameBinder :=
  {| LoadedModules :=
       [ReferencedModule_new {| Decls := [AValueDecl Sample.a] |};
        ReferencedModule_new Sample.Lib;
        ReferencedModule_new {| Decls := [AValueDecl Sample.callee] |}];
     TopLevelValues := {[ "b" := 10%N ]};
     Imports := [(Sample.importNone, 0); (Sample.importLib, 1); (Sample.importLib, 2)];
     Context := Sample.Ctx |}.

(** [import Lib; z = call(ghost); w = z] *)
Definition unresolvedAfterImport : TranslationUnitDecl :=
  {| Decls := [AnImportDecl Sample.importLib; AValueDecl Sample.z;
               AValueDecl Sample.w] |}.

End SampleMore.

(** ** The pass, over a file system and a parser

    [getFile] stands for [llvm::MemoryBuffer::getFile] and
    [parseTranslationUnit] for [Parser(BufferID, Context).parseTranslationUnit()],
    which may print messages, set the error flag and register buffers of its
    own. *)
Section Pass.
Variable getFile : string → error_code + MemoryBuffer.
Variable parseTranslationUnit :
  nat → ASTContext → option TranslationUnitDecl * ASTContext.

(** [NameBinder::getReferencedModule]: the position of the loaded module
    in [LoadedModules], or null. *)
Definition getReferencedModule (Loc : SMLoc) (ModuleID : Identifier)
    (B : NameBinder) : option nat * NameBinder :=
  let InputFilename := InputFilename ModuleID in
  match getFile InputFilename with
  | inl Err =>
      (None,
       error Loc ("opening import file '" +:+ InputFilename +:+ "': "
                  +:+ message Err) B)
  | inr InputFile =>
      let '(BufferID, SM) :=
        AddNewSourceBuffer InputFile Loc (SourceMgr (Context B)) in
      let C := {| HadError := HadError (Context B); SourceMgr := SM |} in
      let '(TUD, C) := parseTranslationUnit BufferID C in
      let B := with_Context C B in
      match TUD with
      | None => (None, B)
      | Some TUD =>
          let RM := ReferencedModule_new TUD in
          (Some (length (LoadedModules B)),
           with_LoadedModules (LoadedModules B ++ [RM]) B)
      end
  end.

(** [NameBinder::addImport] *)
Definition addImport (ID : ImportDecl) (B : NameBinder) : NameBinder :=
  let '(RM, B) := getReferencedModule (id_ImportLoc ID) (id_Name ID) B in
  match RM with
  | Some RM =>
      {| LoadedModules := LoadedModules B; TopLevelValues := TopLevelValues B;
         Imports := Imports B ++ [(ID, RM)]; Context := Context B |}
  | None => B
  end.

(** The body of the first loop of [performNameBinding] (lines 200-205). *)
Definition prepassDecl (D : Decl) (Binder : NameBinder) : NameBinder :=
  let Binder :=
    match D with
    | AValueDecl VD =>
        if empty_id (vd_Name VD) then Binder else addNamedTopLevelDecl VD Binder
    | _ => Binder
    end in
  match D with
  | AnImportDecl ID => addImport ID Binder
  | _ => Binder
  end.

(** The first loop (lines 198-206). *)
Fixpoint prepass (Ds : list Decl) (Binder : NameBinder) : NameBinder :=
  match Ds with
  | [] => Binder
  | D :: rest => prepass rest (prepassDecl D Binder)
  end.

(** The body of the second loop (lines 212-214): the declaration with
    its initializer rewritten, and the binder afterwards. *)
Definition bindDecl (D : Decl) (Binder : NameBinder) : Decl * NameBinder :=
  match D with
  | AValueDecl VD =>
      match vd_Init VD with
      | Some Init =>
          let '(Init', Binder) := WalkExpr BindNames Init Binder in
          (AValueDecl {| vd_addr := vd_addr VD; vd_Name := vd_Name VD;
                         vd_Init := Init' |}, Binder)
      | None => (D, Binder)
      end
  | _ => (D, Binder)
  end.

(** The second loop (lines 210-215). *)
Fixpoint bindDecls (Ds : list Decl) (Binder : NameBinder)
  : list Decl * NameBinder :=
  match Ds with
  | [] => ([], Binder)
  | D :: rest =>
      let '(D', Binder) := bindDecl D Binder in
      let '(rest', Binder) := bindDecls rest Binder in
      (D' :: rest', Binder)
  end.

(** [swift::performNameBinding]: the translation unit and the context as
    the pass leaves them. *)
Definition performNameBinding (TUD : TranslationUnitDecl) (Ctx : ASTContext)
  : TranslationUnitDecl * ASTContext :=
  let Binder := NameBinder_new Ctx in
  let Binder := prepass (Decls TUD) Binder in
  let '(Ds, Binder) := bindDecls (Decls TUD) Binder in
  ({| Decls := Ds |}, Context Binder).

(** The binder after one operation, and after a sequence of them. *)
Definition runOp (B : NameBinder) (op : BinderOp) : NameBinder :=
  match op with
  | OpPrepass D => prepassDecl D B
  | OpResolve Name Loc => (bindValueName Name Loc B).2
  | OpBind D => (bindDecl D B).2
  end.

Definition runOps (ops : list BinderOp) (B : NameBinder) : NameBinder :=
  foldl runOp B ops.

(** ** The module index *)

Lemma indexDecls_app (l1 l2 : list Decl) (M : gmap Identifier DeclPtr) :
  indexDecls (l1 ++ l2) M = indexDecls l2 (indexDecls l1 M).
Proof. revert M. induction l1 as [|D l1 IH]; intros M; simpl; [done|]. apply IH. Qed.

Lemma named_cons (Name : Identifier) (D : Decl) (Ds : list Decl) :
  named Name (D :: Ds) = false →
  named Name Ds = false ∧ ∀ VD, D = AValueDecl VD → vd_Name VD ≠ Name.
Proof.
  unfold named. simpl. intros [H1 H2]%orb_false_elim. split; [done|].
  intros VD ->. by apply String.eqb_neq.
Qed.

Lemma named_elem (Name : Identifier) (Ds : list Decl) (VD : ValueDecl) :
  AValueDecl VD ∈ Ds → vd_Name VD = Name → named Name Ds = true.
Proof.
  intros Hin Heq. apply existsb_exists. exists (AValueDecl VD).
  split; [by apply list_elem_of_In|]. by apply String.eqb_eq.
Qed.

Lemma indexDecls_unnamed (Name : Identifier) (Ds : list Decl)
    (M : gmap Identifier DeclPtr) :
  named Name Ds = false → indexDecls Ds M !! Name = M !! Name.
Proof.
  revert M. induction Ds as [|D Ds IH]; intros M Hn; simpl; [done|].
  apply named_cons in Hn as [Hn HD]. rewrite IH by done.
  destruct D as [VD| |]; try done.
  destruct (empty_id (vd_Name VD)); [done|].
  apply lookup_insert_ne. by apply HD.
Qed.

Lemma indexDecls_empty_name (Ds : list Decl) (M : gmap Identifier DeclPtr) :
  indexDecls Ds M !! EmptyString = M !! EmptyString.
Proof.
  revert M. induction Ds as [|D Ds IH]; intros M; simpl; [done|].
  rewrite IH. destruct D as [VD| |]; try done.
  destruct (vd_Name VD) eqn:E; simpl; [done|]. by apply lookup_insert_ne.
Qed.

Lemma indexDecls_last (pre post : list Decl) (d : ValueDecl)
    (M : gmap Identifier DeclPtr) :
  empty_id (vd_Name d) = false →
  named (vd_Name d) post = false →
  indexDecls (pre ++ AValueDecl d :: post) M !! vd_Name d = Some (vd_addr d).
Proof.
  intros Hne Hpost. rewrite indexDecls_app. simpl. rewrite Hne.
  rewrite indexDecls_unnamed by done. apply lookup_insert_eq.
Qed.

Lemma indexDecls_named (Ds : list Decl) (M : gmap Identifier DeclPtr)
    (VD : ValueDecl) :
  AValueDecl VD ∈ Ds → empty_id (vd_Name VD) = false →
  is_Some (indexDecls Ds M !! vd_Name VD).
Proof.
  revert M VD. induction Ds as [|D Ds IH]; intros M VD Hin Hne; [by inversion Hin|].
  destruct (named (vd_Name VD) Ds) eqn:Hn.
  - apply existsb_exists in Hn as (D' & Hin' & HD').
    destruct D' as [VD'| |]; try done. apply String.eqb_eq in HD'.
    simpl. rewrite <- HD'. apply IH; [by apply list_elem_of_In|]. by rewrite HD'.
  - apply elem_of_cons in Hin as [<-|Hin].
    + simpl. rewrite Hne. rewrite indexDecls_unnamed by done.
      rewrite lookup_insert_eq. by eexists.
    + by rewrite (named_elem _ _ VD) in Hn.
Qed.

Lemma indexDecls_keys (Ds : list Decl) (M : gmap Identifier DeclPtr) :
  keysNonEmpty M → keysNonEmpty (indexDecls Ds M).
Proof.
  revert M. induction Ds as [|D Ds IH]; intros M HM; simpl; [done|].
  apply IH. destruct D as [VD| |]; try done.
  destruct (empty_id (vd_Name VD)) eqn:E; [done|].
  intros k v. rewrite lookup_insert. case_decide; [by subst|apply HM].
Qed.

Arguments lookupValue : simpl never.
Arguments buildTopLevelValues : simpl never.

Lemma buildTopLevelValues_idem (RM : ReferencedModule) :
  buildTopLevelValues (buildTopLevelValues RM) = buildTopLevelValues RM.
Proof.
  unfold buildTopLevelValues.
  destruct (decide (rm_TopLevelValues RM = ∅)) as [He|Hne]; simpl.
  - rewrite He. case_decide as H; simpl; [|done]. by rewrite !H.
  - by rewrite decide_False.
Qed.

Lemma buildTopLevelValues_new (tud : TranslationUnitDecl) :
  buildTopLevelValues (ReferencedModule_new tud) =
  {| rm_TUD := tud; rm_TopLevelValues := indexDecls (Decls tud) ∅ |}.
Proof. unfold buildTopLevelValues. simpl. by rewrite decide_True. Qed.

Lemma buildTopLevelValues_keys (RM : ReferencedModule) :
  keysNonEmpty (rm_TopLevelValues RM) →
  keysNonEmpty (rm_TopLevelValues (buildTopLevelValues RM)).
Proof.
  intros H. unfold buildTopLevelValues. case_decide; [|done]. simpl.
  by apply indexDecls_keys.
Qed.

(** A lookup answers the same whether or not an earlier lookup has built
    the map of the module. *)
Lemma lookupValue_built (RM : ReferencedModule) (ID : ImportDecl)
    (Name : Identifier) :
  lookupValue (buildTopLevelValues RM) ID Name = lookupValue RM ID Name.
Proof. unfold lookupValue. by rewrite buildTopLevelValues_idem. Qed.

Lemma built_from_refl (Ms : list ReferencedModule) : built_from Ms Ms.
Proof. apply Forall2_same_length_lookup_2; [done|]. intros i x y ??. left. congruence. Qed.

Lemma built_from_insert (Ms Ms' : list ReferencedModule) (p : nat)
    (RM : ReferencedModule) :
  built_from Ms Ms' → Ms !! p = Some RM →
  built_from Ms (<[p := buildTopLevelValues RM]> Ms').
Proof.
  intros H Hp. apply Forall2_same_length_lookup_2.
  - rewrite length_insert. by eapply Forall2_length.
  - intros i x y Hx Hy. destruct (decide (i = p)) as [->|Hne].
    + rewrite list_lookup_insert_eq in Hy.
      * right. congruence.
      * erewrite <- Forall2_length by done. by eapply lookup_lt_Some.
    + rewrite list_lookup_insert_ne in Hy by done.
      by eapply (Forall2_lookup_lr _ _ _ _ _ _ H).
Qed.

Lemma built_from_lookup (Ms Ms' : list ReferencedModule) (p : nat) :
  built_from Ms Ms' →
  match Ms !! p, Ms' !! p with
  | Some RM, Some RM' => buildTopLevelValues RM' = buildTopLevelValues RM
  | None, None => True
  | _, _ => False
  end.
Proof.
  intros H. destruct (Ms !! p) as [RM|] eqn:E.
  - destruct (Forall2_lookup_l _ _ _ _ _ H E) as (RM' & -> & [->| ->]); [done|].
    apply buildTopLevelValues_idem.
  - apply lookup_ge_None in E. erewrite Forall2_length in E by done.
    apply lookup_ge_None in E. by rewrite E.
Qed.

(** The import loop returns what the first import with a match offers, as
    judged on the modules the loop started from. *)
Lemma scanImports_first (Is : list (ImportDecl * nat)) (Name : Identifier)
    (Ms Ms' : list ReferencedModule) :
  built_from Ms Ms' →
  (scanImports Is Name Ms').1 = firstImport Is Name Ms ∧
  built_from Ms (scanImports Is Name Ms').2.
Proof.
  revert Ms'. induction Is as [|[ID p] Is IH]; intros Ms' H; simpl; [done|].
  pose proof (built_from_lookup _ _ p H) as Hp.
  destruct (Ms !! p) as [RM|] eqn:E, (Ms' !! p) as [RM'|] eqn:E'; try done.
  - unfold lookupValue. rewrite Hp. simpl.
    destruct (rm_TopLevelValues (buildTopLevelValues RM) !! Name) as [D|]; simpl.
    + split; [done|]. by apply built_from_insert.
    + apply IH. by apply built_from_insert.
  - by apply IH.
Qed.

Lemma built_from_trans (Ms1 Ms2 Ms3 : list ReferencedModule) :
  built_from Ms1 Ms2 → built_from Ms2 Ms3 → built_from Ms1 Ms3.
Proof.
  unfold built_from. intros H12. revert Ms3.
  induction H12 as [|RM1 RM2 Ms1 Ms2 H12 _ IH]; intros Ms3 H23.
  - by inversion H23.
  - inversion H23 as [|? RM3 ? Ms3' H23' Hrest]; subst. constructor; [|by apply IH].
    destruct H12 as [->| ->], H23' as [->| ->]; auto.
    right. apply buildTopLevelValues_idem.
Qed.

Lemma firstImport_none (Is : list (ImportDecl * nat)) (Name : Identifier)
    (Ms : list ReferencedModule) :
  (∀ ID p RM, (ID, p) ∈ Is → Ms !! p = Some RM →
              (lookupValue RM ID Name).1 = None) →
  firstImport Is Name Ms = None.
Proof.
  induction Is as [|[ID p] Is IH]; intros H; cbn [firstImport]; [done|].
  destruct (Ms !! p) as [RM|] eqn:E.
  - rewrite (H ID p RM); [|left|done]. apply IH. intros. eapply H; [by right|done].
  - apply IH. intros. eapply H; [by right|done].
Qed.

Lemma firstImport_found (before after : list (ImportDecl * nat))
    (ID : ImportDecl) (p : nat) (RM : ReferencedModule) (D : DeclPtr)
    (Name : Identifier) (Ms : list ReferencedModule) :
  firstImport before Name Ms = None →
  Ms !! p = Some RM → (lookupValue RM ID Name).1 = Some D →
  firstImport (before ++ (ID, p) :: after) Name Ms = Some D.
Proof.
  intros Hb Hp HD.
  induction before as [|[ID' p'] before IH]; cbn [firstImport app] in *.
  - by rewrite Hp, HD.
  - destruct (Ms !! p') as [RM'|]; [|by apply IH].
    destruct (lookupValue RM' ID' Name).1; [done|by apply IH].
Qed.

(** ** Resolution *)

Lemma binder_step_refl (B : NameBinder) : binder_step B B.
Proof. repeat split. apply built_from_refl. Qed.

Lemma binder_step_trans (B1 B2 B3 : NameBinder) :
  binder_step B1 B2 → binder_step B2 B3 → binder_step B1 B3.
Proof.
  intros (HT & HI & HM) (HT' & HI' & HM'). repeat split; try congruence.
  by eapply built_from_trans.
Qed.

Lemma bindValueName_local (Name : Identifier) (Loc : SMLoc) (B : NameBinder)
    (D : DeclPtr) :
  TopLevelValues B !! Name = Some D →
  bindValueName Name Loc B = (Some (DeclRefExpr D Loc), B).
Proof. intros H. unfold bindValueName. by rewrite H. Qed.

Lemma bindValueName_imported (Name : Identifier) (Loc : SMLoc) (B : NameBinder) :
  TopLevelValues B !! Name = None →
  bindValueName Name Loc B =
  let Ms := (scanImports (Imports B) Name (LoadedModules B)).2 in
  match firstImport (Imports B) Name (LoadedModules B) with
  | Some D => (Some (DeclRefExpr D Loc), with_LoadedModules Ms B)
  | None =>
      (None, error Loc ("use of unresolved identifier '" +:+ Name +:+ "'")
               (with_LoadedModules Ms B))
  end.
Proof.
  intros H. unfold bindValueName. rewrite H.
  destruct (scanImports_first (Imports B) Name _ _ (built_from_refl (LoadedModules B)))
    as [Hr _].
  destruct (scanImports (Imports B) Name (LoadedModules B)) as [D Ms].
  simpl in *. by rewrite <- Hr.
Qed.

Lemma bindValueName_step (Name : Identifier) (Loc : SMLoc) (B : NameBinder) :
  binder_step B (bindValueName Name Loc B).2.
Proof.
  destruct (TopLevelValues B !! Name) as [D|] eqn:E.
  - rewrite (bindValueName_local _ _ _ D E). apply binder_step_refl.
  - rewrite bindValueName_imported by done.
    destruct (scanImports_first (Imports B) Name _ _ (built_from_refl (LoadedModules B)))
      as [_ Hb].
    by destruct (firstImport _ _ _).
Qed.

(** What a resolution returns depends on the table, the import list and
    the declarations of the modules only, not on which maps are built. *)
Lemma bindValueName_stable (Name : Identifier) (Loc : SMLoc) (B B' : NameBinder) :
  binder_step B B' →
  (bindValueName Name Loc B').1 = (bindValueName Name Loc B).1.
Proof.
  intros (HT & HI & HM). unfold bindValueName. rewrite HT, HI.
  destruct (TopLevelValues B !! Name) as [D|]; [done|].
  destruct (scanImports_first (Imports B) Name _ _ HM) as [Hr' _].
  destruct (scanImports_first (Imports B) Name _ _ (built_from_refl (LoadedModules B)))
    as [Hr _].
  destruct (scanImports (Imports B) Name (LoadedModules B')) as [D' Ms'].
  destruct (scanImports (Imports B) Name (LoadedModules B)) as [D Ms].
  simpl in *. rewrite Hr', Hr. by destruct (firstImport _ _ _).
Qed.

(** ** The rewriting of an initializer *)

Lemma WalkExpr_OtherExpr {State : Type}
    (Fn : Expr → WalkOrder → State → option Expr * State)
    (Kind : string) (SubExprs : list (option Expr)) (st : State) :
  WalkExpr Fn (OtherExpr Kind SubExprs) st =
  let '(SubExprs', st') :=
    walkSubExprs Fn SubExprs (Fn (OtherExpr Kind SubExprs) Walk_PreOrder st).2 in
  Fn (OtherExpr Kind SubExprs') Walk_PostOrder st'.
Proof. reflexivity. Qed.

Lemma rewriteReferences_OtherExpr (Kind : string) (SubExprs : list (option Expr))
    (B : NameBinder) :
  rewriteReferences (OtherExpr Kind SubExprs) B =
  let '(SubExprs', B') := rewriteChildren SubExprs B in
  (Some (OtherExpr Kind SubExprs'), B').
Proof. reflexivity. Qed.

Lemma WalkExpr_BindNames (E : Expr) (B : NameBinder) :
  WalkExpr BindNames E B = rewriteReferences E B.
Proof.
  revert B. induction E as [Name Loc|D Loc|Kind SubExprs IH] using Expr_nested_ind;
    intros B; [done|done|].
  rewrite WalkExpr_OtherExpr, rewriteReferences_OtherExpr. cbn [BindNames snd].
  assert (∀ B, walkSubExprs BindNames SubExprs B = rewriteChildren SubExprs B)
    as ->; [|by destruct (rewriteChildren SubExprs B)].
  induction IH as [|[C|] l HC _ IHl]; intros B'; cbn [walkSubExprs rewriteChildren].
  - done.
  - rewrite (HC C eq_refl). destruct (rewriteReferences C B') as [C' B1].
    by rewrite IHl.
  - by rewrite IHl.
Qed.

Lemma rewriteReferences_step (E : Expr) (B : NameBinder) :
  binder_step B (rewriteReferences E B).2.
Proof.
  revert B. induction E as [Name Loc|D Loc|Kind SubExprs IH] using Expr_nested_ind;
    intros B.
  - apply bindValueName_step.
  - apply binder_step_refl.
  - rewrite rewriteReferences_OtherExpr.
    assert (∀ B, binder_step B (rewriteChildren SubExprs B).2) as Hl;
      [|specialize (Hl B); by destruct (rewriteChildren SubExprs B)].
    induction IH as [|[C|] l HC _ IHl]; intros B'; cbn [rewriteChildren].
    + apply binder_step_refl.
    + specialize (HC C eq_refl B').
      destruct (rewriteReferences C B') as [C' B1]. specialize (IHl B1).
      destruct (rewriteChildren l B1) as [l' B2]. by eapply binder_step_trans.
    + specialize (IHl B'). by destruct (rewriteChildren l B').
Qed.

Lemma binder_step_keys (B B' : NameBinder) :
  binder_step B B' → binderKeysNonEmpty B → binderKeysNonEmpty B'.
Proof.
  intros (HT' & _ & Hb) [HT HM]. split; [by rewrite HT'|].
  apply Forall_lookup_2. intros i RM' Hi.
  destruct (Forall2_lookup_r _ _ _ _ _ Hb Hi) as (RM & HRM & Hor).
  pose proof (Forall_lookup_1 _ _ _ _ HM HRM) as Hk. simpl in Hk.
  destruct Hor as [->| ->]; [done|]. by apply buildTopLevelValues_keys.
Qed.

(** A reference to a name of the table becomes a reference to the
    declaration the table holds, wherever it sits in the expression. *)
Lemma rewriteReferences_local (path : list nat) (E : Expr) (B : NameBinder)
    (Name : Identifier) (Loc : SMLoc) (D : DeclPtr) :
  TopLevelValues B !! Name = Some D →
  subExprAt path E = Some (UnresolvedDeclRefExpr Name Loc) →
  ∃ E', (rewriteReferences E B).1 = Some E' ∧
        subExprAt path E' = Some (DeclRefExpr D Loc).
Proof.
  revert E B. induction path as [|i path IH]; intros E B HT Hp.
  - simpl in Hp. injection Hp as ->. simpl.
    rewrite (bindValueName_local _ _ _ D HT). by eexists.
  - destruct E as [| |Kind SubExprs]; try done. cbn [subExprAt] in Hp.
    rewrite rewriteReferences_OtherExpr.
    assert (∀ l B i, TopLevelValues B !! Name = Some D →
              (∃ C, l !! i = Some (Some C) ∧
                    subExprAt path C = Some (UnresolvedDeclRefExpr Name Loc)) →
              ∃ C', (rewriteChildren l B).1 !! i = Some (Some C') ∧
                    subExprAt path C' = Some (DeclRefExpr D Loc)) as Hl.
    { clear -IH. induction l as [|[C0|] l IHl]; intros B [|i] HT (C & Hi & HC);
        try done; cbn [rewriteChildren].
      - simpl in Hi. injection Hi as ->.
        destruct (IH C B HT HC) as (C' & HC' & Hsub).
        destruct (rewriteReferences C B) as [C1 B1]. simpl in HC'. subst C1.
        destruct (rewriteChildren l B1) as [l' B2]. by exists C'.
      - pose proof (rewriteReferences_step C0 B) as (HT1 & _ & _).
        destruct (rewriteReferences C0 B) as [C1 B1]. simpl in HT1.
        destruct (IHl B1 i) as (C' & HC' & Hsub); [by rewrite HT1|by exists C|].
        destruct (rewriteChildren l B1) as [l' B2]. by exists C'.
      - destruct (IHl B i) as (C' & HC' & Hsub); [done|by exists C|].
        destruct (rewriteChildren l B) as [l' B2]. by exists C'. }
    destruct (SubExprs !! i) as [[C|]|] eqn:Hi; try done.
    destruct (Hl SubExprs B i HT) as (C' & HC' & Hsub); [by exists C|].
    destruct (rewriteChildren SubExprs B) as [l' B']. simpl in HC'.
    eexists. split; [done|]. cbn [subExprAt]. by rewrite HC'.
Qed.

(** ** The two loops of the pass *)

Lemma bindDecl_step (D : Decl) (B : NameBinder) : binder_step B (bindDecl D B).2.
Proof.
  destruct D as [VD| |]; simpl; try apply binder_step_refl.
  destruct (vd_Init VD) as [Init|]; [|apply binder_step_refl].
  rewrite WalkExpr_BindNames. pose proof (rewriteReferences_step Init B).
  by destruct (rewriteReferences Init B).
Qed.

(** Each declaration of the unit is rewritten, in its place, by a binder
    that holds the table and the imports the second loop started with. *)
Lemma bindDecls_lookup (Ds : list Decl) (B : NameBinder) (i : nat) (D : Decl) :
  Ds !! i = Some D →
  ∃ Bi, binder_step B Bi ∧ (bindDecls Ds B).1 !! i = Some (bindDecl D Bi).1.
Proof.
  revert B i. induction Ds as [|D0 Ds IH]; intros B [|i] Hi; try done; simpl.
  - injection Hi as ->. exists B. split; [apply binder_step_refl|].
    destruct (bindDecl D B) as [D' B1]. by destruct (bindDecls Ds B1).
  - pose proof (bindDecl_step D0 B) as H0. destruct (bindDecl D0 B) as [D' B1].
    destruct (IH B1 i Hi) as (Bi & Hs & Hl). exists Bi.
    split; [by eapply binder_step_trans|]. by destruct (bindDecls Ds B1).
Qed.

Lemma addImport_TopLevelValues (ID : ImportDecl) (B : NameBinder) :
  TopLevelValues (addImport ID B) = TopLevelValues B.
Proof.
  unfold addImport, getReferencedModule.
  destruct (getFile _); [done|]. simpl.
  destruct (parseTranslationUnit _ _) as [[TUD|] C]; done.
Qed.

Lemma addImport_keys (ID : ImportDecl) (B : NameBinder) :
  binderKeysNonEmpty B → binderKeysNonEmpty (addImport ID B).
Proof.
  intros [HT HM]. split; [by rewrite addImport_TopLevelValues|].
  unfold addImport, getReferencedModule.
  destruct (getFile _); [done|]. simpl.
  destruct (parseTranslationUnit _ _) as [[TUD|] C]; [|done]. simpl.
  apply Forall_app. split; [done|]. constructor; [|done]. by intros k v.
Qed.

Lemma prepassDecl_TopLevelValues (D : Decl) (B : NameBinder) :
  TopLevelValues (prepassDecl D B) = indexDecls [D] (TopLevelValues B).
Proof.
  destruct D as [VD|ID|]; simpl; [|apply addImport_TopLevelValues|done].
  by destruct (empty_id (vd_Name VD)).
Qed.

Lemma prepass_TopLevelValues (Ds : list Decl) (B : NameBinder) :
  TopLevelValues (prepass Ds B) = indexDecls Ds (TopLevelValues B).
Proof.
  revert B. induction Ds as [|D Ds IH]; intros B; simpl; [done|].
  by rewrite IH, prepassDecl_TopLevelValues.
Qed.

Lemma prepassDecl_keys (D : Decl) (B : NameBinder) :
  binderKeysNonEmpty B → binderKeysNonEmpty (prepassDecl D B).
Proof.
  intros HB. destruct D as [VD|ID|]; simpl; [|by apply addImport_keys|done].
  destruct (empty_id (vd_Name VD)) eqn:E; [done|].
  destruct HB as [HT HM]. split; [|done]. simpl.
  intros k v. rewrite lookup_insert. case_decide; [by subst|apply HT].
Qed.

(** ** Resolution order *)

(** C1: a resolution first consults the table of the unit and, on a hit,
    returns a reference to that declaration without asking any import;
    when the name is not in the table, it returns a reference to the
    declaration of the first import, in list order, whose module has one
    under that name, and prints nothing. *)
Theorem bindValueName_precedence (Name : Identifier) (Loc : SMLoc) (B : NameBinder) :
  (∀ D, TopLevelValues B !! Name = Some D →
        bindValueName Name Loc B = (Some (DeclRefExpr D Loc), B)) ∧
  (∀ before ID p after RM D,
      TopLevelValues B !! Name = None →
      Imports B = before ++ (ID, p) :: after →
      (∀ ID' p' RM', (ID', p') ∈ before → LoadedModules B !! p' = Some RM' →
                     (lookupValue RM' ID' Name).1 = None) →
      LoadedModules B !! p = Some RM →
      (lookupValue RM ID Name).1 = Some D →
      (bindValueName Name Loc B).1 = Some (DeclRefExpr D Loc) ∧
      binder_step B (bindValueName Name Loc B).2 ∧
      Context (bindValueName Name Loc B).2 = Context B).
Proof.
  split; [intros D; apply bindValueName_local|].
  intros before ID p after RM D HT HI Hb Hp HD.
  assert (firstImport (Imports B) Name (LoadedModules B) = Some D) as HF.
  { rewrite HI. apply (firstImport_found before after ID p RM); try done.
    by apply firstImport_none. }
  pose proof (bindValueName_step Name Loc B) as Hstep.
  rewrite bindValueName_imported in Hstep |- * by done.
  by rewrite HF in Hstep |- *.
Qed.

(** ** Forward references *)

(** C2: the second loop starts from the binder the first loop leaves after
    all declarations of the unit, so a reference to a name whose last
    declaration in the unit is [d] is rewritten into a reference to [d],
    whether the initializer that uses the name stands before [d], after
    it, or is the one of [d] itself. *)
Theorem forward_reference_resolves (TUD : TranslationUnitDecl) (Ctx : ASTContext)
    (pre post : list Decl) (d u : ValueDecl) (i : nat) (Init : Expr)
    (path : list nat) (Loc : SMLoc) :
  Decls TUD = pre ++ AValueDecl d :: post →
  empty_id (vd_Name d) = false →
  named (vd_Name d) post = false →
  Decls TUD !! i = Some (AValueDecl u) →
  vd_Init u = Some Init →
  subExprAt path Init = Some (UnresolvedDeclRefExpr (vd_Name d) Loc) →
  TopLevelValues (prepass (Decls TUD) (NameBinder_new Ctx)) =
    indexDecls (Decls TUD) ∅ ∧
  ∃ Init',
    Decls (performNameBinding TUD Ctx).1 !! i =
      Some (AValueDecl {| vd_addr := vd_addr u; vd_Name := vd_Name u;
                          vd_Init := Some Init' |}) ∧
    subExprAt path Init' = Some (DeclRefExpr (vd_addr d) Loc).
Proof.
  intros HDs Hne Hpost Hi HInit Hpath.
  split; [apply prepass_TopLevelValues|].
  unfold performNameBinding.
  set (B := prepass (Decls TUD) (NameBinder_new Ctx)).
  assert (TopLevelValues B !! vd_Name d = Some (vd_addr d)) as HT.
  { unfold B. rewrite prepass_TopLevelValues, HDs. by apply indexDecls_last. }
  destruct (bindDecls_lookup (Decls TUD) B i _ Hi) as (Bi & (HTi & _ & _) & Hl).
  destruct (bindDecls (Decls TUD) B) as [Ds' B'] eqn:E. simpl in *.
  rewrite Hl. rewrite HInit, WalkExpr_BindNames.
  destruct (rewriteReferences_local path Init Bi (vd_Name d) Loc (vd_addr d))
    as (Init' & HI' & Hsub); [by rewrite HTi|done|].
  destruct (rewriteReferences Init Bi) as [r Br]. simpl in HI'. subst r.
  by exists Init'.
Qed.

(** ** Diagnostics of the second loop *)

Lemma reports_refl (C : ASTContext) : reports C C.
Proof.
  exists []. rewrite app_nil_r, orb_false_r. by repeat split.
Qed.

Lemma reports_trans (C1 C2 C3 : ASTContext) :
  reports C1 C2 → reports C2 C3 → reports C1 C3.
Proof.
  intros (n1 & HM1 & HF1 & HE1 & HB1) (n2 & HM2 & HF2 & HE2 & HB2).
  exists (n1 ++ n2). rewrite HM2, HM1, HE2, HE1, HB2, HB1, app_assoc.
  repeat split; [by apply Forall_app|].
  destruct n1, n2; simpl; by rewrite ?orb_false_r, ?orb_true_r.
Qed.

Lemma bindValueName_reports (Name : Identifier) (Loc : SMLoc) (B : NameBinder) :
  reports (Context B) (Context (bindValueName Name Loc B).2).
Proof.
  destruct (TopLevelValues B !! Name) as [D|] eqn:E.
  - rewrite (bindValueName_local _ _ _ D E). apply reports_refl.
  - rewrite bindValueName_imported by done.
    destruct (firstImport _ _ _) as [D|]; simpl; [apply reports_refl|].
    eexists [_]. simpl. rewrite orb_true_r. repeat split. by constructor.
Qed.

Lemma rewriteReferences_reports (E : Expr) (B : NameBinder) :
  reports (Context B) (Context (rewriteReferences E B).2).
Proof.
  revert B. induction E as [Name Loc|D Loc|Kind SubExprs IH] using Expr_nested_ind;
    intros B.
  - apply bindValueName_reports.
  - apply reports_refl.
  - rewrite rewriteReferences_OtherExpr.
    assert (∀ B, reports (Context B) (Context (rewriteChildren SubExprs B).2)) as Hl;
      [|specialize (Hl B); by destruct (rewriteChildren SubExprs B)].
    induction IH as [|[C|] l HC _ IHl]; intros B'; cbn [rewriteChildren].
    + apply reports_refl.
    + specialize (HC C eq_refl B').
      destruct (rewriteReferences C B') as [C' B1]. specialize (IHl B1).
      destruct (rewriteChildren l B1) as [l' B2]. by eapply reports_trans.
    + specialize (IHl B'). by destruct (rewriteChildren l B').
Qed.

Lemma bindDecls_reports (Ds : list Decl) (B : NameBinder) :
  reports (Context B) (Context (bindDecls Ds B).2).
Proof.
  revert B. induction Ds as [|D Ds IH]; intros B; simpl; [apply reports_refl|].
  assert (reports (Context B) (Context (bindDecl D B).2)) as HD.
  { destruct D as [VD| |]; simpl; try apply reports_refl.
    destruct (vd_Init VD) as [Init|]; [|apply reports_refl].
    rewrite WalkExpr_BindNames. pose proof (rewriteReferences_reports Init B).
    by destruct (rewriteReferences Init B). }
  destruct (bindDecl D B) as [D' B1]. specialize (IH B1).
  destruct (bindDecls Ds B1) as [Ds' B2]. by eapply reports_trans.
Qed.

Lemma reports_keeps (C C' : ASTContext) (m : SMLoc * string * string) :
  reports C C' →
  m ∈ Messages (SourceMgr C) ∧ HadError C = true →
  m ∈ Messages (SourceMgr C') ∧ HadError C' = true.
Proof.
  intros (new & HM & _ & HE & _) [Hm Hflag]. rewrite HM, HE, Hflag.
  split; [apply elem_of_app; by left|done].
Qed.

Lemma rewriteChildren_reports (l : list (option Expr)) (B : NameBinder) :
  reports (Context B) (Context (rewriteChildren l B).2).
Proof.
  revert B. induction l as [|[C|] l IH]; intros B; cbn [rewriteChildren].
  - apply reports_refl.
  - pose proof (rewriteReferences_reports C B) as HC.
    destruct (rewriteReferences C B) as [C' B1]. specialize (IH B1).
    destruct (rewriteChildren l B1) as [l' B2]. by eapply reports_trans.
  - specialize (IH B). by destruct (rewriteChildren l B).
Qed.

Lemma rewriteChildren_lookup (l : list (option Expr)) (B : NameBinder) (i : nat)
    (C : Expr) :
  l !! i = Some (Some C) →
  ∃ Bi, binder_step B Bi ∧
        (rewriteChildren l B).1 !! i = Some (rewriteReferences C Bi).1 ∧
        reports (Context (rewriteReferences C Bi).2)
                (Context (rewriteChildren l B).2).
Proof.
  revert B i. induction l as [|[C0|] l IH]; intros B [|i] Hi; try done;
    cbn [rewriteChildren].
  - injection Hi as ->. exists B. split; [apply binder_step_refl|].
    destruct (rewriteReferences C B) as [C' B1] eqn:E. simpl.
    pose proof (rewriteChildren_reports l B1) as Hr.
    by destruct (rewriteChildren l B1).
  - pose proof (rewriteReferences_step C0 B) as H0.
    destruct (rewriteReferences C0 B) as [C0' B1]. simpl in H0.
    destruct (IH B1 i Hi) as (Bi & Hs & Hl & Hr). exists Bi.
    split; [by eapply binder_step_trans|]. by destruct (rewriteChildren l B1).
  - destruct (IH B i Hi) as (Bi & Hs & Hl & Hr). exists Bi.
    split; [done|]. by destruct (rewriteChildren l B).
Qed.

(** Every unresolved reference of an initializer is replaced by what its
    resolution gives, whatever was resolved or reported before it; and if
    that is null, the error is among the messages when the walk ends. *)
Lemma rewriteReferences_node (path : list nat) (E : Expr) (B0 B : NameBinder)
    (Name : Identifier) (Loc : SMLoc) :
  binder_step B0 B →
  subExprAt path E = Some (UnresolvedDeclRefExpr Name Loc) →
  nodeAt path (rewriteReferences E B).1 = Some (bindValueName Name Loc B0).1 ∧
  ((bindValueName Name Loc B0).1 = None →
   (Loc, "use of unresolved identifier '" +:+ Name +:+ "'", "error")
     ∈ Messages (SourceMgr (Context (rewriteReferences E B).2)) ∧
   HadError (Context (rewriteReferences E B).2) = true).
Proof.
  revert E B. induction path as [|i path IH]; intros E B Hs Hp.
  - simpl in Hp. injection Hp as ->. cbn [rewriteReferences nodeAt].
    pose proof (bindValueName_stable Name Loc B0 B Hs) as Hst. rewrite <- Hst.
    split; [done|]. intros Hnone.
    destruct (TopLevelValues B !! Name) as [D|] eqn:E.
    { by rewrite (bindValueName_local _ _ _ D E) in Hnone. }
    rewrite bindValueName_imported in Hnone |- * by done.
    destruct (firstImport _ _ _) as [D|]; [done|]. simpl.
    split; [|done]. apply elem_of_app. right. by apply list_elem_of_singleton.
  - destruct E as [| |Kind SubExprs]; try done. cbn [subExprAt] in Hp.
    destruct (SubExprs !! i) as [[C|]|] eqn:Hi; try done.
    rewrite rewriteReferences_OtherExpr.
    destruct (rewriteChildren_lookup SubExprs B i C Hi) as (Bi & Hsi & Hl & Hr).
    destruct (IH C Bi (binder_step_trans _ _ _ Hs Hsi) Hp) as [Hnode Hmsg].
    destruct (rewriteChildren SubExprs B) as [l' B2]. simpl in *.
    rewrite Hl. split; [done|]. intros Hnone.
    by apply (reports_keeps _ _ _ Hr), Hmsg.
Qed.

Lemma bindDecls_lookup_reports (Ds : list Decl) (B : NameBinder) (i : nat)
    (D : Decl) :
  Ds !! i = Some D →
  ∃ Bi, binder_step B Bi ∧
        (bindDecls Ds B).1 !! i = Some (bindDecl D Bi).1 ∧
        reports (Context (bindDecl D Bi).2) (Context (bindDecls Ds B).2).
Proof.
  revert B i. induction Ds as [|D0 Ds IH]; intros B [|i] Hi; try done; simpl.
  - injection Hi as ->. exists B. split; [apply binder_step_refl|].
    destruct (bindDecl D B) as [D' B1]. simpl.
    pose proof (bindDecls_reports Ds B1). by destruct (bindDecls Ds B1).
  - pose proof (bindDecl_step D0 B) as H0. destruct (bindDecl D0 B) as [D' B1].
    destruct (IH B1 i Hi) as (Bi & Hs & Hl & Hr). exists Bi.
    split; [by eapply binder_step_trans|]. by destruct (bindDecls Ds B1).
Qed.

(** The second loop replaces every unresolved reference of every
    initializer of the unit by what its resolution gives in the binder the
    loop started with, and an error printed for one of them is among the
    messages when the loop ends. *)
Lemma bindDecls_node (Ds : list Decl) (B : NameBinder) (i : nat) (u : ValueDecl)
    (Init : Expr) (path : list nat) (Name : Identifier) (Loc : SMLoc) :
  Ds !! i = Some (AValueDecl u) →
  vd_Init u = Some Init →
  subExprAt path Init = Some (UnresolvedDeclRefExpr Name Loc) →
  (∃ Init',
     (bindDecls Ds B).1 !! i =
       Some (AValueDecl {| vd_addr := vd_addr u; vd_Name := vd_Name u;
                           vd_Init := Init' |}) ∧
     nodeAt path Init' = Some (bindValueName Name Loc B).1) ∧
  ((bindValueName Name Loc B).1 = None →
   (Loc, "use of unresolved identifier '" +:+ Name +:+ "'", "error")
     ∈ Messages (SourceMgr (Context (bindDecls Ds B).2)) ∧
   HadError (Context (bindDecls Ds B).2) = true).
Proof.
  intros Hi HInit Hp.
  destruct (bindDecls_lookup_reports Ds B i _ Hi) as (Bi & Hs & Hl & Hr).
  rewrite Hl. clear Hl. cbn [bindDecl] in *. rewrite HInit in *.
  rewrite WalkExpr_BindNames in *.
  destruct (rewriteReferences_node path Init B Bi Name Loc Hs Hp) as [Hnode Hmsg].
  destruct (rewriteReferences Init Bi) as [Init' B1]. simpl in *.
  split; [by exists Init'|]. intros Hnone.
  by apply (reports_keeps _ _ _ Hr), Hmsg.
Qed.

Lemma bindDecls_length (Ds : list Decl) (B : NameBinder) :
  length (bindDecls Ds B).1 = length Ds.
Proof.
  revert B. induction Ds as [|D Ds IH]; intros B; simpl; [done|].
  destruct (bindDecl D B) as [D' B1]. specialize (IH B1).
  destruct (bindDecls Ds B1). simpl in *. by rewrite IH.
Qed.

(** ** Unresolved identifiers *)



(** C3: when the table of the unit has no entry for the name and no
    import offers one, the resolution returns null, which is also what
    [BindNames] hands back for the node; it prints exactly one message,
    the error use of unresolved identifier with the name between quotes,
    at the location of the reference, and sets the error flag.  The table
    and the imports are left as they were, so that every later resolution
    answers as it would have.  In the second loop, run from that binder
    over any declarations, an initializer that holds such a reference
    comes back with null at the position of the reference, the error is
    among the messages and the flag is set when the loop ends, and the
    loop does not stop there: it returns as many declarations as it was
    given, and every unresolved reference of every declaration, before or
    after the failing one, is replaced by what its resolution gives.  That
    loop, run after the first one, is what [performNameBinding] returns. *)
Theorem unresolved_identifier (Name : Identifier) (Loc : SMLoc) (B : NameBinder) :
  TopLevelValues B !! Name = None →
  (∀ ID p RM, (ID, p) ∈ Imports B → LoadedModules B !! p = Some RM →
              (lookupValue RM ID Name).1 = None) →
  let B' := (bindValueName Name Loc B).2 in
  (bindValueName Name Loc B).1 = None ∧
  BindNames (UnresolvedDeclRefExpr Name Loc) Walk_PostOrder B = (None, B') ∧
  Messages (SourceMgr (Context B')) =
    Messages (SourceMgr (Context B)) ++
    [(Loc, "use of unresolved identifier '" +:+ Name +:+ "'", "error")] ∧
  HadError (Context B') = true ∧
  Buffers (SourceMgr (Context B')) = Buffers (SourceMgr (Context B)) ∧
  binder_step B B' ∧
  (∀ Name' Loc', (bindValueName Name' Loc' B').1 = (bindValueName Name' Loc' B).1) ∧
  ∀ (Ds : list Decl) (i : nat) (u : ValueDecl) (Init : Expr) (path : list nat),
    Ds !! i = Some (AValueDecl u) →
    vd_Init u = Some Init →
    subExprAt path Init = Some (UnresolvedDeclRefExpr Name Loc) →
    (∃ Init',
       (bindDecls Ds B).1 !! i =
         Some (AValueDecl {| vd_addr := vd_addr u; vd_Name := vd_Name u;
                             vd_Init := Init' |}) ∧
       nodeAt path Init' = Some None) ∧
    (Loc, "use of unresolved identifier '" +:+ Name +:+ "'", "error")
      ∈ Messages (SourceMgr (Context (bindDecls Ds B).2)) ∧
    HadError (Context (bindDecls Ds B).2) = true ∧
    length (bindDecls Ds B).1 = length Ds ∧
    (∀ j v Init_v path' Name' Loc',
       Ds !! j = Some (AValueDecl v) →
       vd_Init v = Some Init_v →
       subExprAt path' Init_v = Some (UnresolvedDeclRefExpr Name' Loc') →
       ∃ Init_v',
         (bindDecls Ds B).1 !! j =
           Some (AValueDecl {| vd_addr := vd_addr v; vd_Name := vd_Name v;
                               vd_Init := Init_v' |}) ∧
         nodeAt path' Init_v' = Some (bindValueName Name' Loc' B).1) ∧
    (∀ TUD Ctx,
       Decls TUD = Ds → prepass Ds (NameBinder_new Ctx) = B →
       performNameBinding TUD Ctx =
       ({| Decls := (bindDecls Ds B).1 |}, Context (bindDecls Ds B).2)).
Proof.
  intros HT HI B'. pose proof (bindValueName_step Name Loc B) as Hstep.
  fold B' in Hstep. unfold B' in *. clear B'. cbn [BindNames].
  assert ((bindValueName Name Loc B).1 = None) as Hnone.
  { rewrite bindValueName_imported by done.
    by rewrite (firstImport_none _ _ _ HI). }
  split; [done|].
  split; [destruct (bindValueName Name Loc B); simpl in *; by subst|].
  rewrite bindValueName_imported in Hstep |- * by done.
  rewrite (firstImport_none _ _ _ HI) in Hstep |- *. simpl in *.
  do 4 (split; [done|]).
  split; [intros Name' Loc'; by apply bindValueName_stable|].
  intros Ds i u Init path Hi HInit Hp.
  destruct (bindDecls_node Ds B i u Init path Name Loc Hi HInit Hp)
    as [(Init' & Hl & Hnode) Hmsg].
  rewrite Hnone in Hnode. destruct (Hmsg Hnone) as [Hin Hflag].
  split; [by exists Init'|]. do 2 (split; [done|]).
  split; [apply bindDecls_length|]. split.
  - intros j v Init_v path' Name' Loc' Hj Hv Hp'.
    by apply (bindDecls_node Ds B j v Init_v path' Name' Loc').
  - intros TUD Ctx HDs HB. unfold performNameBinding. rewrite HDs, HB.
    by destruct (bindDecls Ds B).
Qed.

(** ** Several declarations of one name *)

(** C4: in the table of the unit and in the map of an imported module
    alike, a non-empty name is bound to the last value declaration of
    that name in the order of the declarations; registering a
    declaration prints nothing and sets no flag. *)
Theorem last_declaration_wins (pre post : list Decl) (d : ValueDecl)
    (Ctx : ASTContext) (ID : ImportDecl) (Loc : SMLoc) :
  empty_id (vd_Name d) = false →
  named (vd_Name d) post = false →
  let Ds := pre ++ AValueDecl d :: post in
  TopLevelValues (prepass Ds (NameBinder_new Ctx)) !! vd_Name d = Some (vd_addr d) ∧
  (bindValueName (vd_Name d) Loc (prepass Ds (NameBinder_new Ctx))).1 =
    Some (DeclRefExpr (vd_addr d) Loc) ∧
  (lookupValue (ReferencedModule_new {| Decls := Ds |}) ID (vd_Name d)).1 =
    Some (vd_addr d) ∧
  ∀ VD B, Context (prepassDecl (AValueDecl VD) B) = Context B.
Proof.
  intros Hne Hpost Ds.
  assert (TopLevelValues (prepass Ds (NameBinder_new Ctx)) !! vd_Name d
          = Some (vd_addr d)) as HT.
  { rewrite prepass_TopLevelValues. by apply indexDecls_last. }
  split; [done|]. split; [by rewrite (bindValueName_local _ _ _ _ HT)|]. split.
  - unfold lookupValue. rewrite buildTopLevelValues_new. simpl.
    by apply indexDecls_last.
  - intros VD B. simpl. by destruct (empty_id (vd_Name VD)).
Qed.

(** ** Imports *)

(** C5: when the file of an import cannot be read, loading the module
    prints exactly one message, an error at the location of the import
    statement that carries the reason of the failure, sets the error flag
    and returns null; the import adds nothing to the import list, to the
    loaded modules or to the table, the first loop goes on with the
    declarations that follow, and resolutions answer as if the import
    were not there. *)
Theorem import_read_failure (ID : ImportDecl) (B : NameBinder) (Err : error_code)
    (rest : list Decl) :
  getFile (InputFilename (id_Name ID)) = inl Err →
  let Msg := "opening import file '" +:+ InputFilename (id_Name ID) +:+ "': "
             +:+ message Err in
  let B' := addImport ID B in
  getReferencedModule (id_ImportLoc ID) (id_Name ID) B = (None, B') ∧
  Messages (SourceMgr (Context B')) =
    Messages (SourceMgr (Context B)) ++ [(id_ImportLoc ID, Msg, "error")] ∧
  HadError (Context B') = true ∧
  Buffers (SourceMgr (Context B')) = Buffers (SourceMgr (Context B)) ∧
  Imports B' = Imports B ∧
  LoadedModules B' = LoadedModules B ∧
  TopLevelValues B' = TopLevelValues B ∧
  prepass (AnImportDecl ID :: rest) B = prepass rest B' ∧
  ∀ Name Loc, (bindValueName Name Loc B').1 = (bindValueName Name Loc B).1.
Proof.
  intros Hf Msg B'.
  assert (B' = error (id_ImportLoc ID) Msg B) as ->.
  { unfold B', addImport, getReferencedModule. by rewrite Hf. }
  unfold getReferencedModule. rewrite Hf. simpl.
  do 7 (split; [done|]). split.
  { unfold addImport, getReferencedModule. by rewrite Hf. }
  intros Name Loc. apply bindValueName_stable.
  split; [done|]. split; [done|]. apply built_from_refl.
Qed.

(** C9: two import statements that name the same module are loaded one
    after the other with no regard for each other: the file, whose name
    is the module identifier followed by [.swift], is registered as a new
    buffer and parsed for each of them, and each parse that yields a unit
    adds a module of its own to the loaded modules and an entry of its
    own to the import list. *)
Theorem repeated_import_loads_again (ID1 ID2 : ImportDecl) (B : NameBinder)
    (InputFile : MemoryBuffer) (T1 T2 : TranslationUnitDecl) (C1 C2 : ASTContext) :
  id_Name ID2 = id_Name ID1 →
  getFile (id_Name ID1 +:+ ".swift") = inr InputFile →
  parseTranslationUnit
    (AddNewSourceBuffer InputFile (id_ImportLoc ID1) (SourceMgr (Context B))).1
    {| HadError := HadError (Context B);
       SourceMgr :=
         (AddNewSourceBuffer InputFile (id_ImportLoc ID1) (SourceMgr (Context B))).2 |}
  = (Some T1, C1) →
  parseTranslationUnit
    (AddNewSourceBuffer InputFile (id_ImportLoc ID2) (SourceMgr C1)).1
    {| HadError := HadError C1;
       SourceMgr := (AddNewSourceBuffer InputFile (id_ImportLoc ID2) (SourceMgr C1)).2 |}
  = (Some T2, C2) →
  InputFilename (id_Name ID2) = id_Name ID1 +:+ ".swift" ∧
  addImport ID2 (addImport ID1 B) =
  {| LoadedModules :=
       LoadedModules B ++ [ReferencedModule_new T1; ReferencedModule_new T2];
     TopLevelValues := TopLevelValues B;
     Imports := Imports B ++ [(ID1, length (LoadedModules B));
                              (ID2, S (length (LoadedModules B)))];
     Context := C2 |}.
Proof.
  intros Hn Hf H1 H2. split; [by rewrite Hn|].
  unfold addImport, getReferencedModule.
  unfold InputFilename. rewrite Hf. simpl in *. rewrite H1. simpl.
  rewrite Hn, Hf. simpl. rewrite H2. simpl.
  rewrite length_app, <- !app_assoc. simpl. by rewrite Nat.add_1_r.
Qed.

(** ** The map of a module *)

(** C6: the first lookup in a module builds the map from the declarations
    of its unit, in one pass that stores every value declaration with a
    non-empty name and nothing under the empty name, and answers from it;
    the module it leaves is a fixed point of every later lookup, which
    answers from the same map; a name that no value declaration of the
    unit bears yields null. *)
Theorem lookupValue_cached (tud : TranslationUnitDecl) (ID ID' : ImportDecl)
    (Name Name' : Identifier) (later : list (ImportDecl * Identifier)) :
  let Index := indexDecls (Decls tud) ∅ in
  let RM := {| rm_TUD := tud; rm_TopLevelValues := Index |} in
  lookupValue (ReferencedModule_new tud) ID Name = (Index !! Name, RM) ∧
  (∀ VD, AValueDecl VD ∈ Decls tud → empty_id (vd_Name VD) = false →
         is_Some (Index !! vd_Name VD)) ∧
  Index !! EmptyString = None ∧
  lookupValue RM ID' Name' = (Index !! Name', RM) ∧
  foldl (λ RM '(ID, Name), (lookupValue RM ID Name).2) RM later = RM ∧
  (named Name (Decls tud) = false →
   (lookupValue (ReferencedModule_new tud) ID Name).1 = None).
Proof.
  intros Index RM.
  assert (∀ ID Name, lookupValue RM ID Name = (Index !! Name, RM)) as Hfix.
  { intros ID0 Name0. unfold RM, Index. rewrite <- (buildTopLevelValues_new tud).
    rewrite lookupValue_built. unfold lookupValue.
    by rewrite buildTopLevelValues_new. }
  assert (lookupValue (ReferencedModule_new tud) ID Name = (Index !! Name, RM))
    as Hfirst.
  { unfold lookupValue. by rewrite buildTopLevelValues_new. }
  split; [done|]. split; [intros VD; apply indexDecls_named|].
  split; [by unfold Index; rewrite indexDecls_empty_name|].
  split; [done|]. split.
  - induction later as [|[ID0 Name0] later IH]; cbn [foldl]; [done|].
    by rewrite Hfix.
  - intros Hn. rewrite Hfirst. simpl. unfold Index.
    by rewrite indexDecls_unnamed.
Qed.

(** ** The rewriting of initializers *)


(** ** Table keys *)

Lemma runOp_keys (B : NameBinder) (op : BinderOp) :
  binderKeysNonEmpty B →
  binderKeysNonEmpty (runOp B op).
Proof.
  intros HB. destruct op as [D|Name Loc|D]; simpl.
  - by apply prepassDecl_keys.
  - eapply binder_step_keys; [apply bindValueName_step|done].
  - eapply binder_step_keys; [apply bindDecl_step|done].
Qed.

(** C8: the first loop registers a value declaration in the table of the
    unit only if its name is not empty; hence, after any sequence of
    prepass steps, resolutions and rewritings that starts from a fresh
    binder, neither the table of the unit nor the map of any loaded
    module has the empty identifier for a key. *)
Theorem table_keys_non_empty (ops : list BinderOp) (Ctx : ASTContext)
    (VD : ValueDecl) (B : NameBinder) :
  prepassDecl (AValueDecl VD) B =
    (if empty_id (vd_Name VD) then B
     else {| LoadedModules := LoadedModules B;
             TopLevelValues := <[vd_Name VD := vd_addr VD]> (TopLevelValues B);
             Imports := Imports B; Context := Context B |}) ∧
  binderKeysNonEmpty (runOps ops (NameBinder_new Ctx)) ∧
  TopLevelValues (runOps ops (NameBinder_new Ctx)) !! EmptyString = None ∧
  Forall (λ RM, rm_TopLevelValues RM !! EmptyString = None)
         (LoadedModules (runOps ops (NameBinder_new Ctx))).
Proof.
  split; [done|].
  assert (binderKeysNonEmpty (runOps ops (NameBinder_new Ctx))) as [HT HM].
  { unfold runOps.
    assert (binderKeysNonEmpty (NameBinder_new Ctx)) as H0.
    { split; [by intros k v|constructor]. }
    revert H0. generalize (NameBinder_new Ctx).
    induction ops as [|op ops IH]; intros B0 H0; simpl; [done|].
    apply IH. by apply runOp_keys. }
  split; [done|]. split.
  - destruct (_ !! EmptyString) as [v|] eqn:E; [|done]. by apply HT in E.
  - eapply Forall_impl; [exact HM|]. intros RM HRM. simpl in HRM.
    destruct (_ !! EmptyString) as [v|] eqn:E; [|done]. by apply HRM in E.
Qed.

(** ** Anonymous declarations *)


(** ** Further properties of the binder *)

(** X1: when the file of an import is read but the parser returns no
    unit, the import adds no module and no import entry and the binder
    prints nothing of its own: only the context changes, to the one the
    parser left, and the parser was given the file registered as a new
    buffer whose include location is that of the import statement. *)
Theorem import_parse_failure (ID : ImportDecl) (B : NameBinder)
    (InputFile : MemoryBuffer) (C : ASTContext) :
  getFile (InputFilename (id_Name ID)) = inr InputFile →
  parseTranslationUnit (length (Buffers (SourceMgr (Context B))))
    {| HadError := HadError (Context B);
       SourceMgr :=
         {| Buffers := Buffers (SourceMgr (Context B)) ++
                       [(InputFile, id_ImportLoc ID)];
            Messages := Messages (SourceMgr (Context B)) |} |} = (None, C) →
  getReferencedModule (id_ImportLoc ID) (id_Name ID) B = (None, with_Context C B) ∧
  addImport ID B =
    {| LoadedModules := LoadedModules B; TopLevelValues := TopLevelValues B;
       Imports := Imports B; Context := C |}.
Proof.
  intros Hf Hp. unfold addImport, getReferencedModule.
  rewrite Hf. simpl. by rewrite Hp.
Qed.

Lemma addImport_Imports (ID : ImportDecl) (B : NameBinder) :
  (LoadedModules (addImport ID B) = LoadedModules B ∧
   Imports (addImport ID B) = Imports B) ∨
  (∃ tud, LoadedModules (addImport ID B) =
            LoadedModules B ++ [ReferencedModule_new tud] ∧
          Imports (addImport ID B) = Imports B ++ [(ID, length (LoadedModules B))]).
Proof.
  unfold addImport, getReferencedModule.
  destruct (getFile _); [by left|]. simpl.
  destruct (parseTranslationUnit _ _) as [[TUD|] C]; [|by left].
  right. by exists TUD.
Qed.

Lemma binder_step_tracks (B B' : NameBinder) :
  binder_step B B' → importsTrackModules B → importsTrackModules B'.
Proof.
  intros (_ & HI & HM) H. unfold importsTrackModules in *.
  by rewrite HI, <- (Forall2_length _ _ _ HM).
Qed.

(** X2: in every binder reached from a fresh one, the import list and the
    loaded modules go together: the k-th import entry points to the k-th
    loaded module, so that no two imports share a module and every
    position stored in the import list has a module. *)
Theorem imports_track_modules (ops : list BinderOp) (Ctx : ASTContext) :
  importsTrackModules (runOps ops (NameBinder_new Ctx)) ∧
  length (Imports (runOps ops (NameBinder_new Ctx))) =
    length (LoadedModules (runOps ops (NameBinder_new Ctx))) ∧
  NoDup (Imports (runOps ops (NameBinder_new Ctx))).*2 ∧
  Forall (λ e, is_Some (LoadedModules (runOps ops (NameBinder_new Ctx)) !! e.2))
         (Imports (runOps ops (NameBinder_new Ctx))).
Proof.
  assert (importsTrackModules (runOps ops (NameBinder_new Ctx))) as H.
  { unfold runOps. assert (importsTrackModules (NameBinder_new Ctx)) as H0 by done.
    revert H0. generalize (NameBinder_new Ctx).
    induction ops as [|op ops IH]; intros B H0; simpl; [done|]. apply IH.
    destruct op as [D|Name Loc|D]; simpl.
    - assert (∀ B, importsTrackModules B → importsTrackModules
                (match D with
                 | AValueDecl VD =>
                     if empty_id (vd_Name VD) then B else addNamedTopLevelDecl VD B
                 | _ => B
                 end)) as Hreg.
      { intros B1 H1. destruct D as [VD| |]; try done.
        by destruct (empty_id (vd_Name VD)). }
      unfold prepassDecl. destruct D as [VD|ID|]; try by apply Hreg.
      unfold importsTrackModules in *.
      destruct (addImport_Imports ID B) as [[-> ->]|(tud & -> & ->)]; [done|].
      rewrite fmap_app, length_app, H0. simpl. by rewrite Nat.add_1_r, seq_S.
    - eapply binder_step_tracks; [apply bindValueName_step|done].
    - eapply binder_step_tracks; [apply bindDecl_step|done]. }
  split; [done|]. unfold importsTrackModules in H. split; [|split].
  - by rewrite <- (length_fmap snd), H, length_seq.
  - rewrite H. apply NoDup_seq.
  - apply Forall_forall. intros [ID p] Hin. simpl.
    apply lookup_lt_is_Some.
    assert (p ∈ (Imports (runOps ops (NameBinder_new Ctx))).*2) as Hp.
    { apply list_elem_of_fmap. by exists (ID, p). }
    rewrite H in Hp. apply elem_of_seq in Hp. lia.
Qed.

(** X3: a resolution has two outcomes only.  It returns a reference, at
    the location it was given, to a declaration and leaves the context as
    it was; or it returns null, having printed one error at that location
    and raised the flag.  In both cases the table and the import list are
    untouched and no buffer is registered. *)
Theorem bindValueName_outcome (Name : Identifier) (Loc : SMLoc) (B : NameBinder) :
  let r := (bindValueName Name Loc B).1 in
  let B' := (bindValueName Name Loc B).2 in
  ((∃ D, r = Some (DeclRefExpr D Loc)) ∧ Context B' = Context B ∨
   r = None ∧
   HadError (Context B') = true ∧
   Messages (SourceMgr (Context B')) =
     Messages (SourceMgr (Context B)) ++
     [(Loc, "use of unresolved identifier '" +:+ Name +:+ "'", "error")]) ∧
  Buffers (SourceMgr (Context B')) = Buffers (SourceMgr (Context B)) ∧
  TopLevelValues B' = TopLevelValues B ∧
  Imports B' = Imports B ∧
  length (LoadedModules B') = length (LoadedModules B).
Proof.
  intros r B'. pose proof (bindValueName_step Name Loc B) as (HT & HI & HM).
  fold B' in HT, HI, HM. apply Forall2_length in HM.
  unfold r, B' in *. clear r B'.
  destruct (TopLevelValues B !! Name) as [D|] eqn:E.
  - rewrite (bindValueName_local _ _ _ D E) in *. simpl.
    split; [left; eauto|done].
  - rewrite bindValueName_imported in * by done.
    destruct (firstImport _ _ _) as [D|]; simpl in *.
    + split; [left; eauto|done].
    + split; [by right|done].
Qed.

Lemma scanImports_stops (before after : list (ImportDecl * nat))
    (ID : ImportDecl) (p q : nat) (RM : ReferencedModule) (D : DeclPtr)
    (Name : Identifier) (Ms Ms' : list ReferencedModule) :
  built_from Ms Ms' →
  firstImport before Name Ms = None →
  Ms !! p = Some RM → (lookupValue RM ID Name).1 = Some D →
  q ∉ before.*2 → q ≠ p →
  (scanImports (before ++ (ID, p) :: after) Name Ms').2 !! q = Ms' !! q.
Proof.
  intros Hb Hnone Hp HD Hq Hqp. revert Ms' Hb Hnone Hq.
  induction before as [|[ID0 p0] before IH]; intros Ms' Hb Hnone Hq;
    cbn [app scanImports firstImport] in *.
  - pose proof (built_from_lookup _ _ p Hb) as Hl. rewrite Hp in Hl.
    destruct (Ms' !! p) as [RM'|] eqn:E'; [|done].
    unfold lookupValue in *. rewrite Hl. simpl in *. rewrite HD. simpl.
    by rewrite list_lookup_insert_ne.
  - apply not_elem_of_cons in Hq as [Hq0 Hq].
    pose proof (built_from_lookup _ _ p0 Hb) as Hl.
    destruct (Ms !! p0) as [RM0|] eqn:E0, (Ms' !! p0) as [RM0'|] eqn:E0';
      try done; [|by apply IH].
    unfold lookupValue in Hnone |- *. rewrite Hl. simpl in *.
    destruct (rm_TopLevelValues (buildTopLevelValues RM0) !! Name); [done|].
    rewrite IH; [by rewrite list_lookup_insert_ne| |done|done].
    by apply built_from_insert.
Qed.

(** X4: the scan of the imports stops at the first match: when the name
    is not in the table and the first import to offer it is the one at
    hand, every module that is reached neither through that import nor
    through an earlier one is left exactly as it was, its map not built. *)
Theorem bindValueName_stops_at_first_match (Name : Identifier) (Loc : SMLoc)
    (B : NameBinder) (before after : list (ImportDecl * nat)) (ID : ImportDecl)
    (p q : nat) (RM : ReferencedModule) (D : DeclPtr) :
  TopLevelValues B !! Name = None →
  Imports B = before ++ (ID, p) :: after →
  firstImport before Name (LoadedModules B) = None →
  LoadedModules B !! p = Some RM →
  (lookupValue RM ID Name).1 = Some D →
  q ∉ before.*2 → q ≠ p →
  LoadedModules (bindValueName Name Loc B).2 !! q = LoadedModules B !! q.
Proof.
  intros HT HI Hnone Hp HD Hq Hqp. unfold bindValueName. rewrite HT, HI.
  pose proof (scanImports_stops before after ID p q RM D Name _ _
                (built_from_refl (LoadedModules B)) Hnone Hp HD Hq Hqp) as Hs.
  pose proof (scanImports_first (before ++ (ID, p) :: after) Name _ _
                (built_from_refl (LoadedModules B))) as [Hr _].
  rewrite (firstImport_found before after ID p RM D) in Hr by done.
  destruct (scanImports _ _ _) as [r Ms]. simpl in *. by subst r.
Qed.

Lemma resolveAll_step (rs : list (Identifier * SMLoc)) (B : NameBinder) :
  binder_step B (resolveAll rs B).
Proof.
  unfold resolveAll. revert B.
  induction rs as [|[n l] rs IH]; intros B; simpl; [apply binder_step_refl|].
  eapply binder_step_trans; [apply bindValueName_step|apply IH].
Qed.

(** X5: what a resolution returns does not depend on the resolutions made
    before it, whether they succeeded or failed, nor on their order: after
    any sequence of resolutions a name resolves to what it resolved to at
    the start. *)
Theorem resolution_order_independent (rs rs' : list (Identifier * SMLoc))
    (Name : Identifier) (Loc : SMLoc) (B : NameBinder) :
  (bindValueName Name Loc (resolveAll rs B)).1 = (bindValueName Name Loc B).1 ∧
  (bindValueName Name Loc (resolveAll rs B)).1 =
  (bindValueName Name Loc (resolveAll rs' B)).1.
Proof.
  pose proof (bindValueName_stable Name Loc B _ (resolveAll_step rs B)) as H.
  pose proof (bindValueName_stable Name Loc B _ (resolveAll_step rs' B)) as H'.
  split; congruence.
Qed.

Lemma bindDecl_frame (D : Decl) (B : NameBinder) : declFrame D (bindDecl D B).1.
Proof.
  destruct D as [VD| |]; simpl; try done.
  destruct (vd_Init VD) as [Init|] eqn:E; simpl; [|by rewrite E].
  by destruct (WalkExpr BindNames Init B).
Qed.

(** X6: the pass keeps the unit in shape: it returns as many declarations
    as it was given, in the same order; imports and declarations that are
    not values come back as they were; a value declaration keeps its
    address and its name, and one without initializer gets none. *)
Theorem performNameBinding_frame (TUD : TranslationUnitDecl) (Ctx : ASTContext) :
  Forall2 declFrame (Decls TUD) (Decls (performNameBinding TUD Ctx).1) ∧
  length (Decls (performNameBinding TUD Ctx).1) = length (Decls TUD).
Proof.
  assert (∀ Ds B, Forall2 declFrame Ds (bindDecls Ds B).1) as H.
  { induction Ds as [|D Ds IH]; intros B; simpl; [constructor|].
    pose proof (bindDecl_frame D B) as HD. destruct (bindDecl D B) as [D' B1].
    specialize (IH B1). destruct (bindDecls Ds B1) as [Ds' B2].
    by constructor. }
  unfold performNameBinding.
  specialize (H (Decls TUD) (prepass (Decls TUD) (NameBinder_new Ctx))).
  destruct (bindDecls _ _) as [Ds' B']. simpl in *.
  split; [done|]. symmetry. by eapply Forall2_length.
Qed.

(** X7: registering and resolving: a declaration handed to
    [addNamedTopLevelDecl] is what its name resolves to from then on,
    whatever the imports offer and even if the name is empty, since the
    operation itself does not look at the name; every other name resolves
    as before. *)
Theorem register_then_resolve (VD : ValueDecl) (Name : Identifier) (Loc : SMLoc)
    (B : NameBinder) :
  bindValueName (vd_Name VD) Loc (addNamedTopLevelDecl VD B) =
    (Some (DeclRefExpr (vd_addr VD) Loc), addNamedTopLevelDecl VD B) ∧
  (Name ≠ vd_Name VD →
   (bindValueName Name Loc (addNamedTopLevelDecl VD B)).1 =
   (bindValueName Name Loc B).1).
Proof.
  split.
  - apply bindValueName_local. simpl. apply lookup_insert_eq.
  - intros Hne. unfold bindValueName. simpl.
    rewrite lookup_insert_ne by done.
    destruct (TopLevelValues B !! Name); [done|].
    by destruct (scanImports _ _ _) as [[D|] Ms].
Qed.

Lemma firstImport_new_module (Is : list (ImportDecl * nat)) (ID : ImportDecl)
    (Name : Identifier) (Ms : list ReferencedModule) (RM : ReferencedModule)
    (D : DeclPtr) :
  firstImport Is Name Ms = None →
  rm_TopLevelValues (buildTopLevelValues RM) !! Name = Some D →
  firstImport (Is ++ [(ID, length Ms)]) Name (Ms ++ [RM]) = Some D.
Proof.
  intros Hnone HD.
  assert ((Ms ++ [RM]) !! length Ms = Some RM) as Hnew.
  { rewrite lookup_app_r by done. by rewrite Nat.sub_diag. }
  induction Is as [|[ID0 p0] Is IH]; cbn [app firstImport] in *.
  - rewrite Hnew. unfold lookupValue. simpl. by rewrite HD.
  - destruct (Ms !! p0) as [RM0|] eqn:E0.
    + rewrite (lookup_app_l_Some _ _ _ _ E0).
      destruct (lookupValue RM0 ID0 Name).1; [done|by apply IH].
    + destruct (decide (p0 = length Ms)) as [->|Hne].
      * rewrite Hnew. unfold lookupValue. simpl. by rewrite HD.
      * apply lookup_ge_None in E0.
        rewrite (proj2 (lookup_ge_None (Ms ++ [RM]) p0)); [by apply IH|].
        rewrite length_app. simpl. lia.
Qed.

(** X8: loading and resolving: once an import has been read and parsed,
    a name that neither the table nor the earlier imports offer resolves
    to the last declaration of that name in the unit of the new module,
    and the resolution prints nothing. *)
Theorem imported_name_resolves (ID : ImportDecl) (B : NameBinder)
    (InputFile : MemoryBuffer) (T : TranslationUnitDecl) (C : ASTContext)
    (pre post : list Decl) (d : ValueDecl) (Loc : SMLoc) :
  getFile (InputFilename (id_Name ID)) = inr InputFile →
  parseTranslationUnit (length (Buffers (SourceMgr (Context B))))
    {| HadError := HadError (Context B);
       SourceMgr :=
         {| Buffers := Buffers (SourceMgr (Context B)) ++
                       [(InputFile, id_ImportLoc ID)];
            Messages := Messages (SourceMgr (Context B)) |} |} = (Some T, C) →
  Decls T = pre ++ AValueDecl d :: post →
  empty_id (vd_Name d) = false →
  named (vd_Name d) post = false →
  TopLevelValues B !! vd_Name d = None →
  firstImport (Imports B) (vd_Name d) (LoadedModules B) = None →
  (bindValueName (vd_Name d) Loc (addImport ID B)).1 =
    Some (DeclRefExpr (vd_addr d) Loc) ∧
  Context (bindValueName (vd_Name d) Loc (addImport ID B)).2 = C.
Proof.
  intros Hf Hp HT Hne Hpost Hloc Himp.
  assert (addImport ID B =
            {| LoadedModules := LoadedModules B ++ [ReferencedModule_new T];
               TopLevelValues := TopLevelValues B;
               Imports := Imports B ++ [(ID, length (LoadedModules B))];
               Context := C |}) as ->.
  { unfold addImport, getReferencedModule. rewrite Hf. simpl. by rewrite Hp. }
  rewrite bindValueName_imported by done. simpl.
  rewrite (firstImport_new_module _ _ _ _ _ (vd_addr d)); [done|done|].
  rewrite buildTopLevelValues_new. simpl. rewrite HT. by apply indexDecls_last.
Qed.

(** X9: the second loop only ever adds to the diagnostics: the context
    the pass returns holds the messages that the first loop left, followed
    by messages that are all errors; its flag is the one the first loop
    left, raised if at least one such error was printed; and the second
    loop registers no buffer. *)
Theorem second_loop_reports (TUD : TranslationUnitDecl) (Ctx : ASTContext) :
  reports (Context (prepass (Decls TUD) (NameBinder_new Ctx)))
          (performNameBinding TUD Ctx).2.
Proof.
  unfold performNameBinding.
  pose proof (bindDecls_reports (Decls TUD)
                (prepass (Decls TUD) (NameBinder_new Ctx))) as H.
  by destruct (bindDecls _ _).
Qed.

Lemma rewriteReferences_resolved (E : Expr) (B : NameBinder) (E' : Expr) :
  (rewriteReferences E B).1 = Some E' → hasUnresolved E' = false.
Proof.
  revert B E'.
  induction E as [Name Loc|D Loc|Kind SubExprs IH] using Expr_nested_ind;
    intros B E' HE.
  - simpl in HE. unfold bindValueName in HE.
    destruct (TopLevelValues B !! Name); [by injection HE as <-|].
    destruct (scanImports _ _ _) as [[D|] Ms]; [by injection HE as <-|done].
  - by injection HE as <-.
  - rewrite rewriteReferences_OtherExpr in HE.
    assert (∀ B, existsb (λ Slot, match Slot with
                                  | Some C => hasUnresolved C
                                  | None => false
                                  end) (rewriteChildren SubExprs B).1 = false) as Hl.
    { clear HE. induction IH as [|[C|] l HC _ IHl]; intros B'; cbn [rewriteChildren].
      - done.
      - specialize (HC C eq_refl B').
        destruct (rewriteReferences C B') as [[C'|] B1]; specialize (IHl B1);
          destruct (rewriteChildren l B1) as [l' B2]; simpl in *; [|done].
        by rewrite (HC C' eq_refl).
      - specialize (IHl B'). by destruct (rewriteChildren l B'). }
    specialize (Hl B). destruct (rewriteChildren SubExprs B) as [l' B'].
    simpl in *. by injection HE as <-.
Qed.

(** X10: no placeholder survives the pass: in the unit it returns, no
    initializer holds an unresolved reference; each one was replaced by a
    resolved reference or by null. *)
Theorem no_unresolved_reference_left (TUD : TranslationUnitDecl) (Ctx : ASTContext) :
  forallb declResolved (Decls (performNameBinding TUD Ctx).1) = true.
Proof.
  assert (∀ D B, declResolved (bindDecl D B).1 = true) as HD.
  { intros [VD| |] B; simpl; try done.
    destruct (vd_Init VD) as [Init|] eqn:E; simpl; [|by rewrite E].
    rewrite WalkExpr_BindNames.
    pose proof (rewriteReferences_resolved Init B) as H.
    destruct (rewriteReferences Init B) as [[E'|] B1]; simpl in *; [|done].
    by rewrite (H E' eq_refl). }
  assert (∀ Ds B, forallb declResolved (bindDecls Ds B).1 = true) as H.
  { induction Ds as [|D Ds IH]; intros B; simpl; [done|].
    specialize (HD D B). destruct (bindDecl D B) as [D' B1].
    specialize (IH B1). destruct (bindDecls Ds B1) as [Ds' B2].
    simpl in *. by rewrite HD, IH. }
  unfold performNameBinding.
  specialize (H (Decls TUD) (prepass (Decls TUD) (NameBinder_new Ctx))).
  by destruct (bindDecls _ _).
Qed.

(** X11: the import list is filled in source order: after the first loop
    it holds, for some of the import statements of the unit (those whose
    module was loaded), one entry each, in the order of the statements. *)
Theorem imports_in_source_order (Ds : list Decl) (Ctx : ASTContext) :
  (Imports (prepass Ds (NameBinder_new Ctx))).*1 `sublist_of` importDecls Ds.
Proof.
  assert (∀ B, ∃ l, (Imports (prepass Ds B)).*1 = (Imports B).*1 ++ l ∧
                    l `sublist_of` importDecls Ds) as H.
  { induction Ds as [|D Ds IH]; intros B; simpl.
    - exists []. by rewrite app_nil_r.
    - destruct (IH (prepassDecl D B)) as (l & -> & Hl).
      destruct D as [VD|ID|]; cbn [prepassDecl importDecls omap].
      + exists l. split; [|done]. by destruct (empty_id (vd_Name VD)).
      + destruct (addImport_Imports ID B) as [[_ ->]|(tud & _ & ->)].
        * exists l. split; [done|]. by apply sublist_cons.
        * exists (ID :: l). rewrite fmap_app, <- app_assoc. split; [done|].
          by apply sublist_skip.
      + by exists l. }
  destruct (H (NameBinder_new Ctx)) as (l & -> & Hl). done.
Qed.

Lemma prepass_no_imports (Ds : list Decl) (B : NameBinder) :
  importDecls Ds = [] →
  prepass Ds B =
  {| LoadedModules := LoadedModules B;
     TopLevelValues := indexDecls Ds (TopLevelValues B);
     Imports := Imports B; Context := Context B |}.
Proof.
  revert B. induction Ds as [|D Ds IH]; intros B Hno; simpl; [by destruct B|].
  destruct D as [VD|ID|]; try done; simpl in *.
  - rewrite IH by done. by destruct (empty_id (vd_Name VD)).
  - by rewrite IH.
Qed.

(** X12: a unit without import statement is bound without the file
    system and the parser: the pass is then the second loop run on the
    table of the unit alone, and the context it returns has the buffers it
    was given. *)
Theorem no_import_no_file_access (TUD : TranslationUnitDecl) (Ctx : ASTContext) :
  importDecls (Decls TUD) = [] →
  let r := bindDecls (Decls TUD)
             {| LoadedModules := []; TopLevelValues := indexDecls (Decls TUD) ∅;
                Imports := []; Context := Ctx |} in
  performNameBinding TUD Ctx = ({| Decls := r.1 |}, Context r.2) ∧
  Buffers (SourceMgr (performNameBinding TUD Ctx).2) = Buffers (SourceMgr Ctx).
Proof.
  intros Hno r. unfold performNameBinding.
  rewrite prepass_no_imports by done. simpl. fold r.
  destruct (bindDecls_reports (Decls TUD)
              {| LoadedModules := []; TopLevelValues := indexDecls (Decls TUD) ∅;
                 Imports := []; Context := Ctx |}) as (new & _ & _ & _ & HB).
  fold r in HB. by destruct r.
Qed.

(** X13: a lookup in a freshly loaded module finds a declaration exactly
    when the name is not empty and some value declaration of the unit
    bears it; in particular the empty identifier is never found, even in a
    unit that has anonymous declarations. *)
Theorem lookupValue_found_iff (tud : TranslationUnitDecl) (ID : ImportDecl)
    (Name : Identifier) :
  is_Some (lookupValue (ReferencedModule_new tud) ID Name).1 ↔
  empty_id Name = false ∧ named Name (Decls tud) = true.
Proof.
  unfold lookupValue. rewrite buildTopLevelValues_new. simpl. split.
  - intros [D HD]. split.
    + destruct Name; [|done]. by rewrite indexDecls_empty_name in HD.
    + destruct (named Name (Decls tud)) eqn:E; [done|].
      by rewrite indexDecls_unnamed in HD.
  - intros [Hne Hn]. apply existsb_exists in Hn as (D & Hin & HD).
    destruct D as [VD| |]; try done. apply String.eqb_eq in HD. subst Name.
    apply indexDecls_named; [by apply list_elem_of_In|done].
Qed.

Lemma runOps_keys (ops : list BinderOp) (Ctx : ASTContext) :
  binderKeysNonEmpty (runOps ops (NameBinder_new Ctx)).
Proof.
  unfold runOps.
  assert (binderKeysNonEmpty (NameBinder_new Ctx)) as H0.
  { split; [by intros k v|constructor]. }
  revert H0. generalize (NameBinder_new Ctx).
  induction ops as [|op ops IH]; intros B0 H0; simpl; [done|].
  apply IH. by apply runOp_keys.
Qed.

(** X14: a reference whose identifier is empty is never resolved: in
    every binder reached from a fresh one, resolving the empty identifier
    returns null and reports the error, whatever anonymous declarations
    the unit and the imported modules have. *)
Theorem empty_identifier_unresolved (ops : list BinderOp) (Ctx : ASTContext)
    (Loc : SMLoc) :
  (bindValueName EmptyString Loc (runOps ops (NameBinder_new Ctx))).1 = None ∧
  HadError (Context (bindValueName EmptyString Loc
                       (runOps ops (NameBinder_new Ctx))).2) = true.
Proof.
  destruct (runOps_keys ops Ctx) as [HT HM].
  set (B := runOps ops (NameBinder_new Ctx)) in *.
  assert (TopLevelValues B !! EmptyString = None) as Hloc.
  { destruct (_ !! EmptyString) as [v|] eqn:E; [|done]. by apply HT in E. }
  rewrite bindValueName_imported by done.
  rewrite firstImport_none; [done|].
  intros ID p RM _ Hp. unfold lookupValue. simpl.
  apply list_elem_of_lookup_2 in Hp. rewrite Forall_forall in HM.
  pose proof (buildTopLevelValues_keys RM (HM RM Hp)) as Hk.
  destruct (rm_TopLevelValues (buildTopLevelValues RM) !! EmptyString)
    as [v|] eqn:E; [|done].
  by apply Hk in E.
Qed.

End Pass.

Lemma bindValueName_precedence_witness :
  bindValueName "b" 5 Sample.twoImports =
    (Some (DeclRefExpr 10%N 5), Sample.twoImports) ∧
  (bindValueName "helper" 5 Sample.twoImports).1 = Some (DeclRefExpr 101%N 5).
Proof.
  destruct (bindValueName_precedence "b" 5 Sample.twoImports) as [Hlocal _].
  destruct (bindValueName_precedence "helper" 5 Sample.twoImports) as [_ Himp].
  split; [by apply Hlocal|].
  apply (Himp [(Sample.importNone, 0)] Sample.importLib 1 []
           (ReferencedModule_new Sample.Lib) 101%N); try reflexivity.
  intros ID' p' RM' Hin Hp. apply list_elem_of_singleton in Hin.
  injection Hin as -> ->. injection Hp as <-. reflexivity.
Defined.

(** In [b = a; a = 1] the initializer of [b] refers to the declaration of
    [a], which comes after it. *)
Lemma forward_reference_resolves_witness :
  ∃ Init',
    Decls (performNameBinding Sample.getFile Sample.parseTranslationUnit
             Sample.forward Sample.Ctx).1 !! 0 =
      Some (AValueDecl {| vd_addr := 10%N; vd_Name := "b"; vd_Init := Some Init' |}) ∧
    subExprAt [1] Init' = Some (DeclRefExpr 11%N 7).
Proof.
  apply (forward_reference_resolves Sample.getFile Sample.parseTranslationUnit
           Sample.forward Sample.Ctx [AValueDecl Sample.b] [] Sample.a Sample.b 0
           (OtherExpr "call" [None; Some (UnresolvedDeclRefExpr "a" 7)]) [1] 7);
    reflexivity.
Defined.

Lemma unresolved_identifier_witness :
  let out := performNameBinding Sample.getFile Sample.parseTranslationUnit
               SampleMore.unresolvedAfterImport Sample.Ctx in
  (∃ Init',
     Decls out.1 !! 1 =
       Some (AValueDecl {| vd_addr := 40%N; vd_Name := "z"; vd_Init := Init' |}) ∧
     nodeAt [0] Init' = Some None) ∧
  (∃ Init',
     Decls out.1 !! 2 =
       Some (AValueDecl {| vd_addr := 41%N; vd_Name := "w"; vd_Init := Init' |}) ∧
     nodeAt [] Init' = Some (Some (DeclRefExpr 40%N 8))) ∧
  HadError out.2 = true.
Proof.
  set (B := prepass Sample.getFile Sample.parseTranslationUnit
              (Decls SampleMore.unresolvedAfterImport) (NameBinder_new Sample.Ctx)).
  assert (∀ ID p RM, (ID, p) ∈ Imports B → LoadedModules B !! p = Some RM →
            (lookupValue RM ID "ghost").1 = None) as HI.
  { intros ID p RM Hin Hp.
    change (Imports B) with [(Sample.importLib, 0)] in Hin.
    change (LoadedModules B) with [ReferencedModule_new Sample.Lib] in Hp.
    apply list_elem_of_singleton in Hin. injection Hin as -> ->.
    injection Hp as <-. reflexivity. }
  destruct (unresolved_identifier Sample.getFile Sample.parseTranslationUnit
              "ghost" 6 B eq_refl HI)
    as (_ & _ & _ & _ & _ & _ & _ & Hloop).
  destruct (Hloop (Decls SampleMore.unresolvedAfterImport) 1 Sample.z
              (OtherExpr "call" [Some (UnresolvedDeclRefExpr "ghost" 6)]) [0]
              eq_refl eq_refl eq_refl)
    as (Hnode & _ & Hflag & _ & Hall & Hpass).
  intros out. unfold out.
  rewrite (Hpass SampleMore.unresolvedAfterImport Sample.Ctx eq_refl eq_refl).
  simpl fst. simpl snd.
  split; [exact Hnode|]. split; [|exact Hflag].
  exact (Hall 2 Sample.w (UnresolvedDeclRefExpr "z" 8) [] "z" 8
           eq_refl eq_refl eq_refl).
Defined.

Lemma last_declaration_wins_witness :
  (lookupValue (ReferencedModule_new Sample.Lib) Sample.importLib "helper").1 =
  Some 101%N.
Proof.
  apply (last_declaration_wins Sample.getFile Sample.parseTranslationUnit
           [AValueDecl Sample.helper] [] Sample.helper' Sample.Ctx
           Sample.importLib 0); reflexivity.
Defined.

Lemma import_read_failure_witness :
  Messages (SourceMgr (Context
    (addImport Sample.getFile Sample.parseTranslationUnit Sample.importNone
       (NameBinder_new Sample.Ctx)))) =
  [(2, "opening import file 'None.swift': No such file or directory", "error")].
Proof.
  apply (import_read_failure Sample.getFile Sample.parseTranslationUnit
           Sample.importNone (NameBinder_new Sample.Ctx)
           {| message := "No such file or directory" |} []).
  reflexivity.
Defined.

Lemma repeated_import_loads_again_witness :
  Imports (addImport Sample.getFile Sample.parseTranslationUnit Sample.importLib
             (addImport Sample.getFile Sample.parseTranslationUnit Sample.importLib
                (NameBinder_new Sample.Ctx))) =
  [(Sample.importLib, 0); (Sample.importLib, 1)].
Proof.
  destruct (repeated_import_loads_again Sample.getFile Sample.parseTranslationUnit
              Sample.importLib Sample.importLib (NameBinder_new Sample.Ctx)
              "var helper; var helper" Sample.Lib Sample.Lib
              {| HadError := false;
                 SourceMgr := {| Buffers := [("var helper; var helper", 1)];
                                 Messages := [] |} |}
              {| HadError := false;
                 SourceMgr := {| Buffers := [("var helper; var helper", 1);
                                             ("var helper; var helper", 1)];
                                 Messages := [] |} |}
              eq_refl eq_refl eq_refl eq_refl) as [_ ->].
  reflexivity.
Defined.

Lemma lookupValue_cached_witness :
  (lookupValue (ReferencedModule_new Sample.Lib) Sample.importLib "ghost").1 = None.
Proof.
  apply (lookupValue_cached Sample.Lib Sample.importLib Sample.importLib
           "ghost" "helper" []).
  reflexivity.
Defined.

(** ** The pass on the sample units *)

Example local_declaration_wins :
  performNameBinding Sample.getFile Sample.parseTranslationUnit
    Sample.localWins Sample.Ctx =
  ({| Decls :=
        [AnImportDecl Sample.importLib;
         AValueDecl {| vd_addr := 20%N; vd_Name := "x";
                       vd_Init := Some (OtherExpr "call" [Some (DeclRefExpr 21%N 4)]) |};
         AValueDecl Sample.callee] |},
   {| HadError := false;
      SourceMgr := {| Buffers := [("var helper; var helper", 1)]; Messages := [] |} |}).
Proof. reflexivity. Qed.

Example imported_declaration_found :
  performNameBinding Sample.getFile Sample.parseTranslationUnit
    Sample.imported Sample.Ctx =
  ({| Decls :=
        [AnImportDecl Sample.importLib;
         AValueDecl {| vd_addr := 30%N; vd_Name := "y";
                       vd_Init := Some (OtherExpr "call" [Some (DeclRefExpr 101%N 5)]) |}] |},
   {| HadError := false;
      SourceMgr := {| Buffers := [("var helper; var helper", 1)]; Messages := [] |} |}).
Proof. reflexivity. Qed.

Example unresolved_reference_reported :
  performNameBinding Sample.getFile Sample.parseTranslationUnit
    Sample.unresolved Sample.Ctx =
  ({| Decls :=
        [AValueDecl {| vd_addr := 40%N; vd_Name := "z";
                       vd_Init := Some (OtherExpr "call" [None]) |};
         AValueDecl {| vd_addr := 41%N; vd_Name := "w";
                       vd_Init := Some (DeclRefExpr 40%N 8) |}] |},
   {| HadError := true;
      SourceMgr :=
        {| Buffers := [];
           Messages := [(6, "use of unresolved identifier 'ghost'", "error")] |} |}).
Proof. reflexivity. Qed.

(** ** The further properties on the sample data *)

Lemma import_parse_failure_witness :
  addImport Sample.getFile SampleMore.failingParser Sample.importLib
    (NameBinder_new Sample.Ctx) =
  {| LoadedModules := []; TopLevelValues := ∅; Imports := [];
     Context :=
       {| HadError := true;
          SourceMgr :=
            {| Buffers := [("var helper; var helper", 1)];
               Messages := [(0, "expected declaration", "error")] |} |} |}.
Proof.
  apply (import_parse_failure Sample.getFile SampleMore.failingParser
           Sample.importLib (NameBinder_new Sample.Ctx)
           "var helper; var helper"); reflexivity.
Defined.

Lemma bindValueName_stops_at_first_match_witness :
  LoadedModules (bindValueName "helper" 5 SampleMore.threeModules).2 !! 2 =
  Some (ReferencedModule_new {| Decls := [AValueDecl Sample.callee] |}).
Proof.
  apply (bindValueName_stops_at_first_match "helper" 5 SampleMore.threeModules
           [(Sample.importNone, 0)] [(Sample.importLib, 2)] Sample.importLib 1 2
           (ReferencedModule_new Sample.Lib) 101%N); try reflexivity.
  - simpl. apply not_elem_of_cons. split; [lia|apply not_elem_of_nil].
  - lia.
Defined.

Lemma register_then_resolve_witness :
  (bindValueName "helper" 5
     (addNamedTopLevelDecl Sample.a Sample.twoImports)).1 =
  (bindValueName "helper" 5 Sample.twoImports).1.
Proof.
  apply (register_then_resolve Sample.a "helper" 5 Sample.twoImports).
  discriminate.
Defined.

Lemma imported_name_resolves_witness :
  (bindValueName "helper" 9
     (addImport Sample.getFile Sample.parseTranslationUnit Sample.importLib
        (NameBinder_new Sample.Ctx))).1 = Some (DeclRefExpr 101%N 9).
Proof.
  apply (imported_name_resolves Sample.getFile Sample.parseTranslationUnit
           Sample.importLib (NameBinder_new Sample.Ctx) "var helper; var helper"
           Sample.Lib
           {| HadError := false;
              SourceMgr := {| Buffers := [("var helper; var helper", 1)];
                              Messages := [] |} |}
           [AValueDecl Sample.helper] [] Sample.helper' 9); reflexivity.
Defined.

Lemma no_import_no_file_access_witness :
  Buffers (SourceMgr (performNameBinding Sample.getFile SampleMore.failingParser
                        SampleMore.noImports Sample.Ctx).2) = [].
Proof.
  apply (no_import_no_file_access Sample.getFile SampleMore.failingParser
           SampleMore.noImports Sample.Ctx).
  reflexivity.
Defined.
